(** * ChatWait streaming core: a shallow embedding

    The development follows these source files of the backend:

    - [services/chat_agent.py], [ChatAgentService]: [run_streaming] turns the
      event stream of the model runner into token / end / error dictionaries,
      [run_sync] waits for the whole answer;
    - [services/streaming_service.py], [StreamingService]: the registry of
      active connections, the generator [create_stream] that wraps the
      dictionaries into SSE frames, [_format_sse_event] and the sweep
      [cleanup_abandoned_connections];
    - [services/llm_service.py], [LLMService.get_or_create_session];
    - [models/chat_models.py]: the request, response and event models;
    - [routers/chat.py]: the endpoints [chat_wait] and [chat_streaming].

    Python [str] values are lists of Unicode code points, [float] values are
    binary64 numbers, the registry is a finite map keyed by the connection
    identifier, and the asynchronous generator [create_stream] is a
    resumable machine whose every resumption receives the shared registry
    and hands it back. *)

From Stdlib Require Import ZArith List String Ascii DecimalString DecimalZ.
From Stdlib Require Import Lia.
From Stdlib Require SpecFloat.
From stdpp Require Import gmap list.

Local Open Scope Z_scope.

(** ** Python strings *)

(** A [str] is a sequence of code points. *)
Abbreviation pystr := (list N).

(** An ASCII literal of the source. *)
Definition lit (s : string) : pystr :=
  map N_of_ascii (list_ascii_of_string s).

(** [str.isspace] on one code point: the table of CPython's
    [_PyUnicode_IsWhitespace]. *)
Definition isspace (c : N) : bool :=
  ((9 <=? c) && (c <=? 13) || (28 <=? c) && (c <=? 32)
   || (c =? 133) || (c =? 160) || (c =? 5760)
   || (8192 <=? c) && (c <=? 8202)
   || (c =? 8232) || (c =? 8233) || (c =? 8239) || (c =? 8287)
   || (c =? 12288))%N.

Fixpoint lstrip (s : pystr) : pystr :=
  match s with
  | c :: s' => if isspace c then lstrip s' else s
  | [] => []
  end.

Definition rstrip (s : pystr) : pystr := rev (lstrip (rev s)).

(** [s.strip()] with no argument. *)
Definition strip (s : pystr) : pystr := rstrip (lstrip s).

(** Truth value of a [str]: the empty string is falsy. *)
Definition truthy (s : pystr) : bool :=
  match s with [] => false | _ :: _ => true end.

(** [x or "default"] for an optional string: [None] and [""] are falsy. *)
Definition or_default (x : option pystr) : pystr :=
  match x with
  | Some (c :: s) => c :: s
  | Some [] | None => lit "default"
  end.

Definition whitespace_only (s : pystr) : Prop := strip s = [].

(** ** The model runner, as [run_streaming] consumes it *)

(** An exception object: the name of its class and the text [str(e)]. *)
Record exn := Exn { exn_type : pystr; exn_str : pystr }.

(** The [delta] attribute of the data of a raw response event.  A delta that
    is not a string has no [strip()]: reading it raises inside the loop. *)
Inductive delta_value :=
| DeltaStr (token : pystr)
| DeltaNone.

(** One item of [stream_result.stream_events()]. *)
Inductive stream_event :=
| RawResponseEvent (delta : option delta_value)
    (* type == "raw_response_event"; [None]: the data has no delta *)
| OtherEvent.
    (* any other event type *)

(** How the event stream stops: exhausted, with [stream_result.final_output]
    available, or by raising. *)
Inductive runner_end :=
| Completes (final_output : option pystr)
| Raises (e : exn).

(** One invocation of the collaborators: either obtaining the session or
    starting the run raises, or the run streams events. *)
Inductive runner_run :=
| SetupRaises (e : exn)
| Streamed (events : list stream_event) (fin : runner_end).

(** ** [ChatAgentService.run_streaming] *)

(** The dictionaries yielded by [run_streaming], by their ["type"]. *)
Inductive agent_event :=
| TokenEv (token : pystr) (token_index : Z) (context_id : pystr)
| EndEv (context_id : pystr) (final_output : option pystr)
| ErrorEv (context_id : option pystr) (error_code message : pystr).

Definition STREAMING_ERROR : pystr := lit "STREAMING_ERROR".

(** The [except Exception as e] arm that closes [run_streaming]. *)
Definition streaming_error (context_id : option pystr) (e : exn) : agent_event :=
  ErrorEv context_id STREAMING_ERROR (exn_str e).

(** The [async for] loop and what follows it.  [current_token_index] is the
    loop's counter. *)
Fixpoint stream_events_loop (context_id : option pystr)
    (events : list stream_event) (fin : runner_end)
    (current_token_index : Z) : list agent_event :=
  match events with
  | event :: events' =>
      match event with
      | RawResponseEvent (Some (DeltaStr token)) =>
          if truthy (strip token) then
            TokenEv token current_token_index (or_default context_id)
              :: stream_events_loop context_id events' fin
                   (current_token_index + 1)
          else stream_events_loop context_id events' fin current_token_index
      | RawResponseEvent (Some DeltaNone) =>
          (* token.strip() raises; the inner handler logs and continues *)
          stream_events_loop context_id events' fin current_token_index
      | RawResponseEvent None | OtherEvent =>
          stream_events_loop context_id events' fin current_token_index
      end
  | [] =>
      match fin with
      | Completes final_output =>
          [EndEv (or_default context_id) final_output]
      | Raises e => [streaming_error context_id e]
      end
  end.

Definition run_streaming (run : runner_run) (context_id : option pystr)
    (last_token_index : Z) : list agent_event :=
  match run with
  | SetupRaises e => [streaming_error context_id e]
  | Streamed events fin =>
      stream_events_loop context_id events fin last_token_index
  end.

(** *** Vocabulary for statements about the yielded dictionaries *)

Definition is_token (ev : agent_event) : bool :=
  match ev with TokenEv _ _ _ => true | _ => false end.
Definition is_end (ev : agent_event) : bool :=
  match ev with EndEv _ _ => true | _ => false end.
Definition is_error (ev : agent_event) : bool :=
  match ev with ErrorEv _ _ _ => true | _ => false end.

Fixpoint token_indices (evs : list agent_event) : list Z :=
  match evs with
  | TokenEv _ i _ :: evs' => i :: token_indices evs'
  | _ :: evs' => token_indices evs'
  | [] => []
  end.

(** [start, start+1, ..., start+n-1]. *)
Fixpoint consecutive (start : Z) (n : nat) : list Z :=
  match n with
  | O => []
  | S n' => start :: consecutive (start + 1) n'
  end.

(** The deltas that pass the [if token.strip()] test, in order. *)
Fixpoint kept_deltas (events : list stream_event) : list pystr :=
  match events with
  | RawResponseEvent (Some (DeltaStr token)) :: events' =>
      if truthy (strip token) then token :: kept_deltas events'
      else kept_deltas events'
  | _ :: events' => kept_deltas events'
  | [] => []
  end.

(** Tokens numbered from [start]. *)
Fixpoint number_tokens (name : pystr) (start : Z) (tokens : list pystr)
    : list agent_event :=
  match tokens with
  | t :: ts => TokenEv t start name :: number_tokens name (start + 1) ts
  | [] => []
  end.

(** ** Event models and their transport encoding *)

(** The three pydantic models of [models/chat_models.py]; [event_type] is
    the default of each model. *)
Inductive sse_event :=
| StreamTokenEvent (token : pystr) (token_index : Z) (context_id : pystr)
| StreamEndEvent (context_id : pystr) (final_output : pystr)
| StreamErrorEvent (context_id : option pystr) (error_code message : pystr).

(** The values that occur in a dumped model. *)
Inductive json :=
| JStr (s : pystr)
| JInt (z : Z)
| JNull.

(** A [dict] with string keys, in insertion order. *)
Abbreviation pydict := (list (pystr * json)).

Definition json_opt (x : option pystr) : json :=
  match x with Some s => JStr s | None => JNull end.

(** [model.model_dump()]: the fields in declaration order. *)
Definition model_dump (ev : sse_event) : pydict :=
  match ev with
  | StreamTokenEvent token token_index context_id =>
      [ (lit "token", JStr token); (lit "token_index", JInt token_index);
        (lit "context_id", JStr context_id);
        (lit "event_type", JStr (lit "token")) ]
  | StreamEndEvent context_id final_output =>
      [ (lit "context_id", JStr context_id);
        (lit "event_type", JStr (lit "end"));
        (lit "final_output", JStr final_output) ]
  | StreamErrorEvent context_id error_code message =>
      [ (lit "context_id", json_opt context_id);
        (lit "event_type", JStr (lit "error"));
        (lit "error_code", JStr error_code);
        (lit "message", JStr message) ]
  end.

Definition NEWLINE : N := 10%N.
Definition CARRIAGE_RETURN : N := 13%N.

(** One lower-case hexadecimal digit. *)
Definition hex_digit (n : N) : N :=
  (if n <? 10 then 48 + n else 87 + n)%N.

(** [json.dumps(..., ensure_ascii=False)] on one character of a string:
    the quote, the backslash and the control characters below 0x20 are
    escaped, everything else is copied. *)
Definition escape_char (c : N) : pystr :=
  (if c =? 34 then [92; 34]
   else if c =? 92 then lit "\\"
   else if c =? 10 then lit "\n"
   else if c =? 13 then lit "\r"
   else if c =? 9 then lit "\t"
   else if c =? 8 then lit "\b"
   else if c =? 12 then lit "\f"
   else if c <? 32 then lit "\u00" ++ [hex_digit (c / 16); hex_digit (c mod 16)]
   else [c])%N.

Definition QUOTE : pystr := [34%N].

Definition encode_basestring (s : pystr) : pystr :=
  QUOTE ++ concat (map escape_char s) ++ QUOTE.

(** The decimal text of an [int]. *)
Definition int_str (z : Z) : pystr := lit (NilZero.string_of_int (Z.to_int z)).

Definition dumps_value (v : json) : pystr :=
  match v with
  | JStr s => encode_basestring s
  | JInt z => int_str z
  | JNull => lit "null"
  end.

Definition dumps_item (kv : pystr * json) : pystr :=
  encode_basestring (fst kv) ++ lit ": " ++ dumps_value (snd kv).

(** [", ".join(items)]. *)
Fixpoint join_items (items : list pystr) : pystr :=
  match items with
  | [] => []
  | [x] => x
  | x :: rest => x ++ lit ", " ++ join_items rest
  end.

(** [json.dumps(data, ensure_ascii=False)] on a flat dictionary. *)
Definition json_dumps (data : pydict) : pystr :=
  lit "{" ++ join_items (map dumps_item data) ++ lit "}".

(** [StreamingService._format_sse_event]. *)
Definition _format_sse_event (data : pydict) : pystr :=
  lit "data: " ++ json_dumps data ++ [NEWLINE; NEWLINE].

Fixpoint count_char (c : N) (s : pystr) : nat :=
  match s with
  | [] => O
  | x :: s' => if (x =? c)%N then S (count_char c s') else count_char c s'
  end.

(** ** Python floats *)

(** A [float] is an IEEE 754 binary64 number; the operations are the ones of
    the standard library's specification at precision 53 and maximal
    exponent 1024, rounding to nearest, ties to even. *)
Abbreviation pyfloat := SpecFloat.spec_float.

(** [x - y] on floats. *)
Definition float_sub (x y : pyfloat) : pyfloat := SpecFloat.SFsub 53 1024 x y.

(** [x * y] on floats. *)
Definition float_mul (x y : pyfloat) : pyfloat := SpecFloat.SFmul 53 1024 x y.

(** [x / y] on floats. *)
Definition float_div (x y : pyfloat) : pyfloat := SpecFloat.SFdiv 53 1024 x y.

(** [float(z)]: the float nearest to an [int]; exact below 2^53. *)
Definition float_of_int (z : Z) : pyfloat :=
  SpecFloat.binary_normalize 53 1024 z 0 false.

(** The comparison of a float with an [int], which Python makes on the exact
    values: a finite float is [m * 2^e], an infinity is beyond every
    [int], and a NaN compares with nothing. *)
Definition float_compare_int (x : pyfloat) (z : Z) : option comparison :=
  match x with
  | SpecFloat.S754_nan => None
  | SpecFloat.S754_infinity s => Some (if s then Lt else Gt)
  | SpecFloat.S754_zero _ => Some (0 ?= z)
  | SpecFloat.S754_finite s m e =>
      let v := if s then Zneg m else Zpos m in
      Some (if 0 <=? e then v * 2 ^ e ?= z else v ?= z * 2 ^ (- e))
  end.

(** [x > z] for a float and an [int]. *)
Definition float_gt_int (x : pyfloat) (z : Z) : bool :=
  match float_compare_int x z with
  | Some Gt => true
  | _ => false
  end.

(** [x >= z] for a float and an [int]. *)
Definition float_ge_int (x : pyfloat) (z : Z) : bool :=
  match float_compare_int x z with
  | Some (Gt | Eq) => true
  | _ => false
  end.

(** ** The registry of active connections *)

(** The ["status"] strings the service writes. *)
Inductive conn_status := Active | Completed | Errored.

Definition status_str (s : conn_status) : pystr :=
  match s with
  | Active => lit "active"
  | Completed => lit "completed"
  | Errored => lit "error"
  end.

(** One value of [active_connections].  [created_at] is a reading of the
    event loop's clock, in seconds. *)
Record connection := Connection {
  context_id : option pystr;
  last_token_index : Z;
  created_at : pyfloat;
  status : conn_status
}.

(** [self.active_connections]: shared by every generator and by the sweep. *)
Abbreviation registry := (gmap pystr connection).

Definition set_last_token_index (i : Z) (c : connection) : connection :=
  {| context_id := context_id c; last_token_index := i;
     created_at := created_at c; status := status c |}.

Definition set_status (s : conn_status) (c : connection) : connection :=
  {| context_id := context_id c; last_token_index := last_token_index c;
     created_at := created_at c; status := s |}.

(** What can be raised inside [create_stream] itself: a subscript on a
    missing key, or a model that rejects its fields ([token_index] has
    [ge=0], [final_output] must be a string). *)
Inductive failure :=
| KeyError (key : pystr)
| InvalidTokenIndex (token_index : Z)
| InvalidFinalOutput.

(** Texts produced by the interpreter and the libraries, which the source
    only interpolates: the text of a clock reading in an f-string and
    [str(e)] of an exception raised inside [create_stream]. *)
Class Runtime := {
  float_str : pyfloat -> pystr;
  failure_str : failure -> pystr
}.

Definition STREAMING_SERVICE_ERROR : pystr := lit "STREAMING_SERVICE_ERROR".

(** ** [StreamingService.create_stream] as a resumable generator *)

(** The [yield] at which the generator is suspended.  At [AtToken] the
    statement after the yield records the token index. *)
Inductive yield_point :=
| AtToken (token_index : Z)
| AtEnd
| AtError
| AtHandler.

(** A started generator: suspended with its local variables (the connection
    identifier, the [context_id] argument, the dictionaries not yet pulled
    from [run_streaming]) or finished. *)
Inductive generator :=
| Suspended (connection_id : pystr) (ctx : option pystr) (pt : yield_point)
    (rest : list agent_event)
| Finished.

(** What a resumption hands to the consumer. *)
Inductive resumed :=
| Yielded (frame : pystr)
| StopAsyncIteration
| Raised (e : failure).

Definition resumption : Type := resumed * generator * registry.

(** [f"{context_id or 'default'}-{asyncio.get_event_loop().time()}"]. *)
Definition make_connection_id `{Runtime} (ctx : option pystr)
    (now : pyfloat) : pystr :=
  or_default ctx ++ lit "-" ++ float_str now.

(** The [except Exception as e] arm of [create_stream], up to its yield. *)
Definition handle_exception `{Runtime} (cid : pystr) (ctx : option pystr)
    (e : failure) (reg : registry) : resumption :=
  (Yielded (_format_sse_event (model_dump
      (StreamErrorEvent ctx STREAMING_SERVICE_ERROR (failure_str e)))),
   Suspended cid ctx AtHandler [], reg).

(** The [finally] block. *)
Definition finally_cleanup (cid : pystr) (reg : registry) : registry :=
  match reg !! cid with
  | Some _ => delete cid reg
  | None => reg
  end.

(** One turn of the [async for]: pull the next dictionary and run the body
    up to its yield; when [run_streaming] is exhausted, leave through
    [finally]. *)
Definition pull_event `{Runtime} (cid : pystr) (ctx : option pystr)
    (rest : list agent_event) (reg : registry) : resumption :=
  match rest with
  | [] => (StopAsyncIteration, Finished, finally_cleanup cid reg)
  | TokenEv token token_index c :: rest' =>
      if 0 <=? token_index then
        (Yielded (_format_sse_event (model_dump
            (StreamTokenEvent token token_index c))),
         Suspended cid ctx (AtToken token_index) rest', reg)
      else handle_exception cid ctx (InvalidTokenIndex token_index) reg
  | EndEv c (Some final_output) :: rest' =>
      (Yielded (_format_sse_event (model_dump
          (StreamEndEvent c final_output))),
       Suspended cid ctx AtEnd rest', reg)
  | EndEv c None :: rest' => handle_exception cid ctx InvalidFinalOutput reg
  | ErrorEv c error_code message :: rest' =>
      (Yielded (_format_sse_event (model_dump
          (StreamErrorEvent c error_code message))),
       Suspended cid ctx AtError rest', reg)
  end.

(** [self.active_connections[connection_id][field] = value]: the connection
    must be present. *)
Definition update_connection (cid : pystr) (f : connection -> connection)
    (reg : registry) : option registry :=
  match reg !! cid with
  | Some c => Some (<[cid := f c]> reg)
  | None => None
  end.

(** The first resumption: register the connection and enter the loop.  The
    clock is read twice, for the identifier and for [created_at]. *)
Definition create_stream `{Runtime} (run : runner_run) (ctx : option pystr)
    (last_token_index : Z) (now_id now_created : pyfloat) (reg : registry)
    : resumption :=
  let connection_id := make_connection_id ctx now_id in
  let reg' :=
    <[connection_id := {| context_id := ctx;
                          last_token_index := last_token_index;
                          created_at := now_created;
                          status := Active |}]> reg in
  pull_event connection_id ctx (run_streaming run ctx last_token_index) reg'.

(** A later resumption, from the statement after the yield. *)
Definition anext `{Runtime} (g : generator) (reg : registry) : resumption :=
  match g with
  | Finished => (StopAsyncIteration, Finished, reg)
  | Suspended cid ctx pt rest =>
      match pt with
      | AtToken token_index =>
          match update_connection cid (set_last_token_index token_index) reg with
          | Some reg' => pull_event cid ctx rest reg'
          | None => handle_exception cid ctx (KeyError cid) reg
          end
      | AtEnd =>
          match update_connection cid (set_status Completed) reg with
          | Some reg' => pull_event cid ctx rest reg'
          | None => handle_exception cid ctx (KeyError cid) reg
          end
      | AtError =>
          match update_connection cid (set_status Errored) reg with
          | Some reg' => pull_event cid ctx rest reg'
          | None => handle_exception cid ctx (KeyError cid) reg
          end
      | AtHandler =>
          match update_connection cid (set_status Errored) reg with
          | Some reg' => (StopAsyncIteration, Finished, finally_cleanup cid reg')
          | None => (Raised (KeyError cid), Finished, finally_cleanup cid reg)
          end
      end
  end.

(** The consumer abandons the iteration: [GeneratorExit] (or a cancellation)
    is raised at the yield; [except Exception] does not catch it and
    [finally] runs. *)
Definition aclose (g : generator) (reg : registry) : generator * registry :=
  match g with
  | Finished => (Finished, reg)
  | Suspended cid _ _ _ => (Finished, finally_cleanup cid reg)
  end.

(** [n] resumptions in a row with no other task touching the registry. *)
Fixpoint anext_n `{Runtime} (n : nat) (g : generator) (reg : registry)
    : generator * registry :=
  match n with
  | O => (g, reg)
  | S n' => let '(_, g', reg') := anext g reg in anext_n n' g' reg'
  end.

(** What the consumer and the other tasks do between two suspensions. *)
Inductive schedule_step :=
| Anext
| Aclose
| Interfere (f : registry -> registry).

Fixpoint run_schedule `{Runtime} (steps : list schedule_step) (g : generator)
    (reg : registry) : generator * registry :=
  match steps with
  | [] => (g, reg)
  | Anext :: steps' =>
      let '(_, g', reg') := anext g reg in run_schedule steps' g' reg'
  | Aclose :: steps' =>
      let '(g', reg') := aclose g reg in run_schedule steps' g' reg'
  | Interfere f :: steps' => run_schedule steps' g (f reg)
  end.

Definition generator_id (g : generator) : option pystr :=
  match g with
  | Suspended cid _ _ _ => Some cid
  | Finished => None
  end.

Definition is_finished (g : generator) : bool :=
  match g with Finished => true | Suspended _ _ _ _ => false end.

(** The frames of a run drained by [n] further resumptions. *)
Fixpoint frames `{Runtime} (n : nat) (r : resumption) : list pystr :=
  match r with
  | (Yielded frame, g, reg) =>
      frame :: match n with O => [] | S n' => frames n' (anext g reg) end
  | _ => []
  end.

(** ** [StreamingService.cleanup_abandoned_connections] *)

Definition DEFAULT_TIMEOUT_SECONDS : Z := 300.

(** The test of the sweep:
    [status == "active" and (current_time - created_at) > timeout_seconds]. *)
Definition abandoned (current_time : pyfloat) (timeout_seconds : Z)
    (c : connection) : bool :=
  match status c with
  | Active =>
      float_gt_int (float_sub current_time (created_at c)) timeout_seconds
  | _ => false
  end.

(** The body of the [for] loop, on the registry and [cleaned_count]. *)
Definition sweep_step (current_time : pyfloat) (timeout_seconds : Z)
    (acc : registry * Z) (item : pystr * connection) : registry * Z :=
  if abandoned current_time timeout_seconds (snd item)
  then (delete (fst item) (fst acc), snd acc + 1)
  else acc.

(** The loop runs over a snapshot of the items and returns the count. *)
Definition cleanup_abandoned_connections (reg : registry) (current_time : pyfloat)
    (timeout_seconds : Z) : registry * Z :=
  fold_left (sweep_step current_time timeout_seconds)
            (map_to_list reg) (reg, 0).

(** ** Vocabulary for the statements *)

(** The dictionary that closes the output of [run_streaming]. *)
Definition terminal_event (ctx : option pystr) (fin : runner_end) : agent_event :=
  match fin with
  | Completes final_output => EndEv (or_default ctx) final_output
  | Raises e => streaming_error ctx e
  end.

Fixpoint count_events (p : agent_event -> bool) (evs : list agent_event) : nat :=
  match evs with
  | [] => O
  | ev :: evs' => if p ev then S (count_events p evs') else count_events p evs'
  end.

(** The [context_id] a stateless run puts on each kind of dictionary. *)
Definition stateless_context (ev : agent_event) : Prop :=
  match ev with
  | TokenEv _ _ c => c = lit "default"
  | EndEv c _ => c = lit "default"
  | ErrorEv c _ _ => c = None
  end.

Definition delta (s : pystr) : stream_event :=
  RawResponseEvent (Some (DeltaStr s)).

(** The registry's [last_token_index] for a connection, if it is present. *)
Definition tracked_index (cid : pystr) (reg : registry) : option Z :=
  last_token_index <$> reg !! cid.

(** The two characters that end a line of an event stream. *)
Definition line_break (x : N) : Prop := x = NEWLINE \/ x = CARRIAGE_RETURN.

(** The item of the snapshot is one the sweep deletes. *)
Definition swept (current_time : pyfloat) (timeout_seconds : Z)
    (item : pystr * connection) : Prop :=
  abandoned current_time timeout_seconds (snd item) = true.

#[global] Instance swept_dec current_time timeout_seconds item :
  Decision (swept current_time timeout_seconds item).
Proof. unfold swept. apply _. Defined.

(** What the registry holds for a connection after a sweep. *)
Definition after_sweep (current_time : pyfloat) (timeout_seconds : Z)
    (entry : option connection) : option connection :=
  match entry with
  | Some c => if abandoned current_time timeout_seconds c then None else Some c
  | None => None
  end.

(** An upper bound on the resumptions a generator still accepts before it
    is finished. *)
Definition resumptions_left (g : generator) : nat :=
  match g with
  | Finished => 0
  | Suspended _ _ AtHandler _ => 1
  | Suspended _ _ _ rest => length rest + 2
  end.

Fixpoint count_anext (steps : list schedule_step) : nat :=
  match steps with
  | [] => 0
  | Anext :: steps' => S (count_anext steps')
  | _ :: steps' => count_anext steps'
  end.

(** The registry entry written when a stream starts. *)
Definition new_connection (ctx : option pystr) (last_token_index : Z)
    (now_created : pyfloat) : connection :=
  {| context_id := ctx; last_token_index := last_token_index;
     created_at := now_created; status := Active |}.

(** The deltas a run turns into Token dictionaries. *)
Definition tokens_of_run (run : runner_run) : list pystr :=
  match run with
  | SetupRaises _ => []
  | Streamed events _ => kept_deltas events
  end.

(** A runtime with fixed texts, to evaluate the generator on examples: the
    clock is printed as its mantissa and exponent. *)
Definition example_runtime : Runtime :=
  {| float_str := fun x =>
       match x with
       | SpecFloat.S754_zero _ => lit "0.0"
       | SpecFloat.S754_infinity _ => lit "inf"
       | SpecFloat.S754_nan => lit "nan"
       | SpecFloat.S754_finite _ m e =>
           int_str (Zpos m) ++ lit "p" ++ int_str e
       end;
     failure_str := fun e =>
       match e with
       | KeyError key => lit "KeyError: " ++ key
       | InvalidTokenIndex _ => lit "token_index: Input should be greater than or equal to 0"
       | InvalidFinalOutput => lit "final_output: Input should be a valid string"
       end |}.

(** An exception of the conversation store whose text names a file of the
    server. *)
Definition store_failure : exn :=
  {| exn_type := lit "OperationalError";
     exn_str := lit "unable to open database file /srv/chatwait/c1.db" |}.

(** The run of scenario A of the specification and a clock reading. *)
Definition hi_run : runner_run :=
  Streamed [delta (lit "Hi"); delta (lit " there")]
           (Completes (Some (lit "Hi there"))).

Definition clock : pyfloat := float_of_int 1.

(** The model [create_stream] builds from a dictionary, when the model
    accepts the fields. *)
Definition to_model (ev : agent_event) : option sse_event :=
  match ev with
  | TokenEv token token_index c =>
      if 0 <=? token_index then Some (StreamTokenEvent token token_index c)
      else None
  | EndEv c (Some final_output) => Some (StreamEndEvent c final_output)
  | EndEv c None => None
  | ErrorEv c error_code message =>
      Some (StreamErrorEvent c error_code message)
  end.

(** The frames of the dictionaries whose models are accepted. *)
Fixpoint frames_of (evs : list agent_event) : list pystr :=
  match evs with
  | [] => []
  | ev :: evs' =>
      match to_model ev with
      | Some m => _format_sse_event (model_dump m) :: frames_of evs'
      | None => frames_of evs'
      end
  end.

Definition DASH : N := 45%N.

(** The run does not complete with [final_output] being [None]. *)
Definition final_output_is_str (run : runner_run) : Prop :=
  match run with
  | Streamed _ (Completes None) => False
  | _ => True
  end.

(** ** More of Python's [str] *)

(** [s.split()] with no argument, reading [s] from the left: [word] holds
    the characters of the word being read, last one first. *)
Fixpoint split_from (word : pystr) (s : pystr) : list pystr :=
  match s with
  | [] => match word with [] => [] | _ :: _ => [rev word] end
  | c :: s' =>
      if isspace c then
        match word with
        | [] => split_from [] s'
        | _ :: _ => rev word :: split_from [] s'
        end
      else split_from (c :: word) s'
  end.

(** [s.split()]: the maximal runs of characters that are not whitespace. *)
Definition str_split (s : pystr) : list pystr := split_from [] s.

(** [len(x)] as an [int]. *)
Definition len {A} (l : list A) : Z := Z.of_nat (length l).

(** ** [LLMService.get_or_create_session] *)

(** A session object: the identifier it was built for and the identity of
    the object. *)
Record session := SQLiteSession { session_id : pystr; object_id : nat }.

(** [self._sessions]. *)
Abbreviation session_cache := (gmap pystr session).

(** [create_session]: the constructor either raises or gives a new object;
    which of the two is the environment's choice. *)
Definition create_session (built : exn + session) : exn + session := built.

(** [get_or_create_session(session_id)] on the cache; [built] is what the
    constructor does if it is called. *)
Definition get_or_create_session (sessions : session_cache)
    (sid : option pystr) (built : exn + session)
    : (exn + option session) * session_cache :=
  match sid with
  | None => (inr None, sessions)
  | Some sid =>
      match sessions !! sid with
      | Some s => (inr (Some s), sessions)
      | None =>
          match create_session built with
          | inl e => (inl e, sessions)
          | inr s => (inr (Some s), <[sid := s]> sessions)
          end
      end
  end.

(** ** [ChatMessage] and [ChatAgentService.run_sync] *)

Definition MAX_CONTENT_LENGTH : Z := 10000.

(** The reasons for which [ChatMessage] rejects its fields. *)
Inductive field_error :=
| StringTooShort
| StringTooLong
| ContentEmpty
| ContentTooLong
| NotGreaterThanZero.

(** [ChatMessage.validate_content]. *)
Definition validate_content (v : pystr) : field_error + pystr :=
  if negb (truthy v) || negb (truthy (strip v)) then inl ContentEmpty
  else if MAX_CONTENT_LENGTH <? len v then inl ContentTooLong
  else inr (strip v).

(** The [content] field: [min_length=1], [max_length=10000], then the
    validator. *)
Definition content_field (v : pystr) : field_error + pystr :=
  if len v <? 1 then inl StringTooShort
  else if MAX_CONTENT_LENGTH <? len v then inl StringTooLong
  else validate_content v.

(** A field with [gt=0]. *)
Definition positive_field (n : Z) : field_error + Z :=
  if 0 <? n then inr n else inl NotGreaterThanZero.

(** The fields of a [ChatMessage] that [run_sync] sets and reads; the role
    is always [MessageRole.ASSISTANT] and the timestamp is never read. *)
Record chat_message := ChatMessage_ {
  content : pystr;
  token_count : Z
}.

(** [ChatMessage(role=ASSISTANT, content=..., token_count=...)]: the errors
    of all fields, or the message. *)
Definition ChatMessage (content_arg : pystr) (token_count_arg : Z)
    : list field_error + chat_message :=
  match content_field content_arg, positive_field token_count_arg with
  | inr c, inr n => inr {| content := c; token_count := n |}
  | inl e1, inl e2 => inl [e1; e2]
  | inl e1, inr _ => inl [e1]
  | inr _, inl e2 => inl [e2]
  end.

(** What [Runner.run] does: raises, or returns a result whose
    [final_output] may be [None]. *)
Inductive run_result :=
| RunReturns (final_output : option pystr)
| RunRaises (e : exn).

(** The exceptions that leave [run_sync]. *)
Inductive sync_failure :=
| Reraised (e : exn)
| AttributeError
| ValidationError (errors : list field_error).

(** The dictionary that [run_sync] returns. *)
Record sync_result := SyncResult {
  sync_message : pystr;
  sync_context_id : pystr;
  sync_token_count : Z;
  sync_processing_time_ms : pyfloat;
  sync_agent_output : pystr
}.

(** [run_sync(message, context_id)].  [built] and [run] say what the session
    constructor and the runner do; [start_time] and [end_time] are the two
    readings of the loop's clock. *)
Definition run_sync (sessions : session_cache) (ctx : option pystr)
    (built : exn + session) (run : run_result)
    (start_time end_time : pyfloat)
    : (sync_failure + sync_result) * session_cache :=
  match get_or_create_session sessions ctx built with
  | (inl e, sessions') => (inl (Reraised e), sessions')
  | (inr _, sessions') =>
      match run with
      | RunRaises e => (inl (Reraised e), sessions')
      | RunReturns None => (inl AttributeError, sessions')
      | RunReturns (Some final_output) =>
          match ChatMessage final_output (len (str_split final_output)) with
          | inl errors => (inl (ValidationError errors), sessions')
          | inr response =>
              (inr {| sync_message := content response;
                      sync_context_id := or_default ctx;
                      sync_token_count := token_count response;
                      sync_processing_time_ms :=
                        float_mul (float_sub end_time start_time)
                                  (float_of_int 1000);
                      sync_agent_output := final_output |},
               sessions')
          end
      end
  end.

(** ** The endpoints of [routers/chat.py] *)

(** [not message or not message.strip()]. *)
Definition blank (message : pystr) : bool :=
  negb (truthy message) || negb (truthy (strip message)).

Definition EMPTY_MESSAGE : pystr := lit "EMPTY_MESSAGE".
Definition EMPTY_MESSAGE_TEXT : pystr :=
  lit "Message cannot be empty. Please provide a valid message.".
Definition CHAT_WAIT_ERROR : pystr := lit "CHAT_WAIT_ERROR".
Definition CHAT_WAIT_ERROR_TEXT : pystr :=
  lit "An error occurred while processing your request.".

(** [ChatWaitResponse]. *)
Record chat_wait_response := ChatWaitResponse_ {
  response_message : pystr;
  response_context_id : pystr;
  response_token_count : Z;
  response_processing_time_ms : pyfloat
}.

(** [ChatWaitResponse(...)]: [token_count] has [gt=0] and
    [processing_time_ms] has [ge=0]. *)
Definition ChatWaitResponse (message ctx : pystr) (tokens : Z)
    (ms : pyfloat)
    : option chat_wait_response :=
  if (0 <? tokens) && float_ge_int ms 0 then
    Some {| response_message := message; response_context_id := ctx;
            response_token_count := tokens;
            response_processing_time_ms := ms |}
  else None.

(** [ChatWaitRequest]: the body of a request to [/chat/wait]. *)
Record chat_wait_request := ChatWaitRequest_ {
  request_message : pystr;
  request_context_id : option pystr
}.

Definition MIN_MESSAGE_LENGTH : Z := 1.
Definition MAX_MESSAGE_LENGTH : Z := 10000.

(** [ChatWaitRequest(message=..., context_id=...)]: [message] has
    [min_length=1] and [max_length=10000], counted in characters;
    [context_id] is any string or [None]. *)
Definition ChatWaitRequest (message : pystr) (ctx : option pystr)
    : option chat_wait_request :=
  if (MIN_MESSAGE_LENGTH <=? len message)
     && (len message <=? MAX_MESSAGE_LENGTH)
  then Some {| request_message := message; request_context_id := ctx |}
  else None.

(** What a request to [/chat/wait] gives back: the response model, an
    [HTTPException] of the endpoint with its status and detail, or the
    answer with status 422 that the framework gives when the body does not
    make a [ChatWaitRequest]. *)
Inductive wait_outcome :=
| WaitOk (response : chat_wait_response)
| WaitHTTPException (status_code : Z) (error_code message : pystr)
| WaitRequestValidationError.

(** The clock readings of one request to [/chat/wait]: [time.time()] at the
    start and at the end of the endpoint, and the two readings of the loop's
    clock inside [run_sync]. *)
Record wait_clock := WaitClock {
  wall_start : pyfloat; loop_start : pyfloat;
  loop_end : pyfloat; wall_end : pyfloat
}.

(** The body of [chat_wait(request)] on a request that the model accepted.
    [runner] is what the model runner does with the message it is given. *)
Definition chat_wait_endpoint (runner : pystr -> run_result)
    (built : exn + session) (clock : wait_clock) (sessions : session_cache)
    (request : chat_wait_request) : wait_outcome * session_cache :=
  if blank (request_message request) then
    (WaitHTTPException 400 EMPTY_MESSAGE EMPTY_MESSAGE_TEXT, sessions)
  else
    match run_sync sessions (request_context_id request) built
            (runner (strip (request_message request)))
            (loop_start clock) (loop_end clock) with
    | (inl _, sessions') =>
        (WaitHTTPException 500 CHAT_WAIT_ERROR CHAT_WAIT_ERROR_TEXT, sessions')
    | (inr result, sessions') =>
        match ChatWaitResponse (sync_message result) (sync_context_id result)
                (sync_token_count result)
                (float_mul (float_sub (wall_end clock) (wall_start clock))
                           (float_of_int 1000)) with
        | Some response => (WaitOk response, sessions')
        | None =>
            (WaitHTTPException 500 CHAT_WAIT_ERROR CHAT_WAIT_ERROR_TEXT,
             sessions')
        end
    end.

(** [POST /wait] with a body that holds the string [message] and the
    optional string [ctx]: the parameter [request: ChatWaitRequest] makes the
    framework build the model from the body first; when the model refuses,
    the answer is 422 and [chat_wait] is not called. *)
Definition chat_wait (runner : pystr -> run_result) (built : exn + session)
    (clock : wait_clock) (sessions : session_cache)
    (message : pystr) (ctx : option pystr) : wait_outcome * session_cache :=
  match ChatWaitRequest message ctx with
  | Some request => chat_wait_endpoint runner built clock sessions request
  | None => (WaitRequestValidationError, sessions)
  end.

(** What [chat_streaming] gives back: an [HTTPException], or a streaming
    response over [create_stream] called with these arguments; the
    generator is not started by the endpoint. *)
Inductive streaming_outcome :=
| StreamingResponse (message : pystr) (ctx : option pystr)
    (last_token_index : Z)
| StreamingHTTPException (status_code : Z) (error_code message : pystr).

(** [chat_streaming(message, context_id, last_token_index)]. *)
Definition chat_streaming (message : pystr) (ctx : option pystr)
    (last_token_index : Z) : streaming_outcome :=
  if blank message then
    StreamingHTTPException 400 EMPTY_MESSAGE EMPTY_MESSAGE_TEXT
  else StreamingResponse (strip message) ctx last_token_index.

(** The body of a streaming response drained by [n] resumptions after the
    first, when nothing else touches the registry.  [runner] is what the
    collaborators do with the message. *)
Definition response_frames `{Runtime} (runner : pystr -> runner_run)
    (n : nat) (now_id now_created : pyfloat) (reg : registry)
    (outcome : streaming_outcome) : list pystr :=
  match outcome with
  | StreamingResponse message ctx last_token_index =>
      frames n (create_stream (runner message) ctx last_token_index
                  now_id now_created reg)
  | StreamingHTTPException _ _ _ => []
  end.

(** ** [StreamingService.get_connection_status] and [health_check] *)

(** The dictionary that [get_connection_status] returns. *)
Record connection_status := ConnectionStatus {
  status_connection_id : pystr;
  status_context_id : option pystr;
  status_last_token_index : Z;
  status_status : conn_status;
  status_created_at : pyfloat
}.

Definition status_of (conn_id : pystr) (conn_data : connection)
    : connection_status :=
  {| status_connection_id := conn_id;
     status_context_id := context_id conn_data;
     status_last_token_index := last_token_index conn_data;
     status_status := status conn_data;
     status_created_at := created_at conn_data |}.

(** [get_connection_status(context_id)] on [active_connections.items()],
    the items in the order in which the dictionary iterates. *)
Fixpoint get_connection_status (items : list (pystr * connection))
    (ctx : pystr) : option connection_status :=
  match items with
  | [] => None
  | (conn_id, conn_data) :: items' =>
      if decide (context_id conn_data = Some ctx)
      then Some (status_of conn_id conn_data)
      else get_connection_status items' ctx
  end.

(** The items of the registry in some iteration order. *)
Definition items_of (reg : registry) (items : list (pystr * connection)) : Prop :=
  items ≡ₚ map_to_list reg.

(** The ["active_connections"] entry of [StreamingService.health_check]. *)
Definition active_connections_count (reg : registry) : Z :=
  Z.of_nat (size reg).

(** ** Vocabulary for further statements *)

(** A schedule in which no other task touches the registry. *)
Definition undisturbed (steps : list schedule_step) : Prop :=
  Forall (fun step => step = Anext \/ step = Aclose) steps.

(** A code point below 0x20. *)
Definition control_char (c : N) : bool := (c <? 32)%N.

(** The value of a hexadecimal digit. *)
Definition hex_value (c : N) : N :=
  (if c <? 58 then c - 48 else c - 87)%N.

(** A reader for the text between the quotes of a JSON string as
    [encode_basestring] writes it. *)
Fixpoint decode_basestring (s : pystr) : pystr :=
  match s with
  | [] => []
  | c :: s' =>
      if (c =? 92)%N then
        match s' with
        | [] => []
        | e :: s'' =>
            if (e =? 117)%N then
              match s'' with
              | a :: b :: h :: l :: rest =>
                  (((hex_value a * 16 + hex_value b) * 16 + hex_value h) * 16
                   + hex_value l)%N :: decode_basestring rest
              | _ => []
              end
            else
              (if e =? 110 then 10 else if e =? 114 then 13
               else if e =? 116 then 9 else if e =? 98 then 8
               else if e =? 102 then 12 else e)%N :: decode_basestring s''
        end
      else c :: decode_basestring s'
  end.

(** The text of a JSON string up to the quote that closes it, and what
    follows that quote; the character after a backslash is never taken for
    the closing quote. *)
Fixpoint read_string_body (s : pystr) : option (pystr * pystr) :=
  match s with
  | [] => None
  | c :: s' =>
      if (c =? 34)%N then Some ([], s')
      else if (c =? 92)%N then
        match s' with
        | [] => None
        | e :: s'' =>
            match read_string_body s'' with
            | Some (body, rest) => Some (c :: e :: body, rest)
            | None => None
            end
        end
      else
        match read_string_body s' with
        | Some (body, rest) => Some (c :: body, rest)
        | None => None
        end
  end.

(** What follows a value in the text of a dictionary: nothing, or the comma
    of the next item. *)
Definition item_end (t : pystr) : Prop := t = [] \/ exists r, t = 44%N :: r.

(** No character of the word is whitespace. *)
Definition no_space (w : pystr) : bool :=
  forallb (fun c => negb (isspace c)) w.

(** The characters of a string that are not whitespace, in order. *)
Definition non_space_chars (s : pystr) : pystr :=
  List.filter (fun c => negb (isspace c)) s.

(** The frames of Tokens numbered from [start]. *)
Fixpoint token_frames (name : pystr) (start : Z) (tokens : list pystr)
    : list pystr :=
  match tokens with
  | t :: ts =>
      _format_sse_event (model_dump (StreamTokenEvent t start name))
        :: token_frames name (start + 1) ts
  | [] => []
  end.

(** [get_or_create_session] does not raise: there is no identifier, the
    session is cached, or the constructor succeeds. *)
Definition session_available (sessions : session_cache) (sid : option pystr)
    (built : exn + session) : Prop :=
  match sid with
  | None => True
  | Some sid =>
      match sessions !! sid, built with
      | None, inl _ => False
      | _, _ => True
      end
  end.

(** The length that [ChatWaitRequest] accepts for [message]. *)
Definition accepted_length (message : pystr) : Prop :=
  MIN_MESSAGE_LENGTH <= len message <= MAX_MESSAGE_LENGTH.

#[global] Instance accepted_length_dec message :
  Decision (accepted_length message).
Proof. unfold accepted_length. apply _. Defined.

(** The status of the answer. *)
Definition wait_status (outcome : wait_outcome) : Z :=
  match outcome with
  | WaitOk _ => 200
  | WaitHTTPException status_code _ _ => status_code
  | WaitRequestValidationError => 422
  end.

(** The dictionaries still to come are Tokens followed by one dictionary
    that is not a Token, as [run_streaming] yields them. *)
Definition tokens_then_terminal (rest : list agent_event) : Prop :=
  exists tokens t,
    rest = tokens ++ [t] /\ forallb is_token tokens = true
    /\ is_token t = false.

(** What is left to pull at each yield of an undisturbed stream. *)
Definition pending_at (pt : yield_point) (rest : list agent_event) : Prop :=
  match pt with
  | AtToken _ => tokens_then_terminal rest
  | AtEnd | AtError | AtHandler => rest = []
  end.

(** The state of a stream started under [cid] on the registry [reg0] when
    no other task has touched the registry since: finished with its entry
    deleted, or suspended with its entry present and active. *)
Definition stream_state (cid : pystr) (ctx : option pystr) (reg0 : registry)
    (g : generator) (reg : registry) : Prop :=
  (g = Finished /\ reg = delete cid reg0)
  \/ (exists pt rest c,
        g = Suspended cid ctx pt rest /\ reg = <[cid := c]> reg0
        /\ status c = Active /\ pending_at pt rest).

(** No character of the text is a control character. *)
Definition no_control (s : pystr) : bool :=
  forallb (fun c => negb (control_char c)) s.

(** Collaborators for the examples: a runner that answers with the message
    it was given, a session object and the clock of one request. *)
Definition echo_runner (message : pystr) : run_result :=
  RunReturns (Some message).

Definition example_session : session :=
  {| session_id := []; object_id := 0 |}.

Definition example_wait_clock : wait_clock :=
  {| wall_start := float_of_int 0; loop_start := float_of_int 0;
     loop_end := float_of_int 1; wall_end := float_of_int 1 |}.

(** A registry with one active connection created at 0. *)
Definition old_registry : registry :=
  {[ lit "c1-0" := Connection (Some (lit "c1")) 0 (float_of_int 0) Active ]}.

(** * Stripping *)

Lemma lstrip_nil_iff (s : pystr) :
  lstrip s = [] <-> forallb isspace s = true.
Proof.
  induction s as [|c s IH]; simpl; [done|].
  destruct (isspace c); simpl; [exact IH|]. split; discriminate.
Qed.

Lemma forallb_rev {A} (p : A -> bool) (l : list A) :
  forallb p (rev l) = forallb p l.
Proof.
  induction l as [|x l IH]; simpl; [done|].
  rewrite forallb_app, IH. simpl. rewrite andb_true_r. apply andb_comm.
Qed.

Lemma lstrip_head (s : pystr) c t : lstrip s = c :: t -> isspace c = false.
Proof.
  induction s as [|x s IH]; simpl; [done|].
  destruct (isspace x) eqn:E; [exact IH|]. by intros [= <- _].
Qed.

(** A string is empty after [strip()] exactly when all its characters are
    whitespace. *)
Lemma whitespace_only_iff (s : pystr) :
  whitespace_only s <-> forallb isspace s = true.
Proof.
  unfold whitespace_only, strip, rstrip. rewrite <- lstrip_nil_iff. split.
  - intros Hs. apply (f_equal (@rev N)) in Hs. rewrite rev_involutive in Hs.
    simpl in Hs. apply lstrip_nil_iff in Hs. rewrite forallb_rev in Hs.
    destruct (lstrip s) as [|c t] eqn:E; [done|].
    apply lstrip_head in E. simpl in Hs. rewrite E in Hs. done.
  - by intros ->.
Qed.

(** * Properties of [run_streaming] *)

Section RunStreaming.

Implicit Types (ctx : option pystr) (evs : list stream_event)
  (fin : runner_end) (i : Z).

Lemma stream_events_loop_shape ctx evs fin i :
  stream_events_loop ctx evs fin i =
    number_tokens (or_default ctx) i (kept_deltas evs)
      ++ [terminal_event ctx fin].
Proof.
  revert i. induction evs as [|ev evs IH]; intros i; simpl.
  - destruct fin; reflexivity.
  - destruct ev as [[[token|]|]|]; simpl; auto.
    destruct (truthy (strip token)); simpl; [rewrite IH|]; auto.
Qed.

Lemma token_indices_app l1 l2 :
  token_indices (l1 ++ l2) = token_indices l1 ++ token_indices l2.
Proof.
  induction l1 as [|[]]; simpl; auto. now rewrite IHl1.
Qed.

Lemma token_indices_number name i ds :
  token_indices (number_tokens name i ds) = consecutive i (length ds).
Proof.
  revert i. induction ds; intros i; simpl; auto. now rewrite IHds.
Qed.

Lemma consecutive_lookup start n (k : nat) :
  (k < n)%nat -> consecutive start n !! k = Some (start + Z.of_nat k).
Proof.
  revert start k. induction n; intros start k Hk; [lia|].
  destruct k; simpl.
  - f_equal. lia.
  - rewrite IHn by lia. f_equal. lia.
Qed.

Lemma consecutive_length start n : length (consecutive start n) = n.
Proof. revert start. induction n; intros; simpl; auto. Qed.

Lemma count_events_app p l1 l2 :
  count_events p (l1 ++ l2) = (count_events p l1 + count_events p l2)%nat.
Proof.
  induction l1; simpl; auto. destruct (p a); simpl; auto.
Qed.

Lemma number_tokens_all_tokens name i ds :
  forallb is_token (number_tokens name i ds) = true.
Proof. revert i. induction ds; intros; simpl; auto. Qed.

Lemma count_not_token p name i ds :
  (forall t j c, p (TokenEv t j c) = false) ->
  count_events p (number_tokens name i ds) = O.
Proof.
  intros Hp. revert i. induction ds; intros; simpl; auto. now rewrite Hp.
Qed.

Lemma kept_deltas_app evs1 evs2 :
  kept_deltas (evs1 ++ evs2) = kept_deltas evs1 ++ kept_deltas evs2.
Proof.
  induction evs1 as [|[[[token|]|]|] evs1 IH]; simpl; auto.
  destruct (truthy (strip token)); simpl; now rewrite ?IH.
Qed.

Lemma number_tokens_app name i ds1 ds2 :
  number_tokens name i (ds1 ++ ds2) =
    number_tokens name i ds1
      ++ number_tokens name (i + Z.of_nat (length ds1)) ds2.
Proof.
  revert i. induction ds1; intros i; simpl.
  - f_equal. lia.
  - rewrite IHds1. do 3 f_equal. lia.
Qed.

(** C1. A run whose event stream is exhausted without raising yields its
    kept deltas as Token dictionaries numbered [last_token_index],
    [last_token_index + 1], ... and then one End dictionary that carries the
    runner's final output; nothing else is yielded. *)
Theorem successful_run_is_numbered_and_closed ctx evs final i :
  let out := run_streaming (Streamed evs (Completes final)) ctx i in
  out = number_tokens (or_default ctx) i (kept_deltas evs)
          ++ [EndEv (or_default ctx) final]
  /\ token_indices out = consecutive i (length (kept_deltas evs))
  /\ head (token_indices out)
     = match kept_deltas evs with [] => None | _ :: _ => Some i end
  /\ count_events is_end out = 1%nat
  /\ count_events is_error out = 0%nat
  /\ last out = Some (EndEv (or_default ctx) final).
Proof.
  simpl. rewrite stream_events_loop_shape. simpl.
  assert (Hidx : token_indices
            (number_tokens (or_default ctx) i (kept_deltas evs)
               ++ [EndEv (or_default ctx) final])
          = consecutive i (length (kept_deltas evs))).
  { rewrite token_indices_app, token_indices_number. simpl.
    apply app_nil_r. }
  repeat split.
  - exact Hidx.
  - rewrite Hidx. now destruct (kept_deltas evs).
  - rewrite count_events_app, count_not_token by reflexivity. reflexivity.
  - rewrite count_events_app, count_not_token by reflexivity. reflexivity.
  - apply last_snoc.
Qed.

(** C2. When the collaborators raise, before the loop or while the next
    event is awaited, the output is the Token dictionaries yielded so far
    followed by one Error dictionary, which is the last item: no Token and
    no End comes after it. *)
Theorem failed_run_ends_with_single_error ctx evs e i :
  run_streaming (SetupRaises e) ctx i = [streaming_error ctx e]
  /\ let out := run_streaming (Streamed evs (Raises e)) ctx i in
     let tokens := number_tokens (or_default ctx) i (kept_deltas evs) in
     out = tokens ++ [streaming_error ctx e]
     /\ forallb is_token tokens = true
     /\ count_events is_error out = 1%nat
     /\ count_events is_end out = 0%nat
     /\ last out = Some (streaming_error ctx e).
Proof.
  split; [reflexivity|]. simpl. rewrite stream_events_loop_shape. simpl.
  repeat split.
  - apply number_tokens_all_tokens.
  - rewrite count_events_app, count_not_token by reflexivity. reflexivity.
  - rewrite count_events_app, count_not_token by reflexivity. reflexivity.
  - apply last_snoc.
Qed.

(** C8. A delta that is empty after [strip()] leaves no trace: the output
    is the one of the same run without that delta, and the delta that
    follows it, when kept, gets the index the loop had reached before the
    whitespace-only delta. *)
Theorem whitespace_delta_is_skipped ctx pre post fin i ws
    (Hws : whitespace_only ws) :
  run_streaming (Streamed (pre ++ delta ws :: post) fin) ctx i =
    run_streaming (Streamed (pre ++ post) fin) ctx i
  /\ stream_events_loop ctx (delta ws :: post) fin i =
       stream_events_loop ctx post fin i
  /\ forall d, truthy (strip d) = true ->
       stream_events_loop ctx (delta ws :: delta d :: post) fin i =
         TokenEv d i (or_default ctx)
           :: stream_events_loop ctx post fin (i + 1).
Proof.
  unfold whitespace_only in Hws. repeat split.
  - simpl. rewrite !stream_events_loop_shape, !kept_deltas_app.
    simpl. now rewrite Hws.
  - simpl. now rewrite Hws.
  - intros d Hd. simpl. now rewrite Hws, Hd.
Qed.

Lemma whitespace_delta_is_skipped_witness :
  whitespace_only (lit "  ")
  /\ run_streaming
       (Streamed ([delta (lit "Hi")] ++ delta (lit "  ") :: [delta (lit "you")])
                 (Completes (Some (lit "Hi you")))) None 0
     = [TokenEv (lit "Hi") 0 (lit "default");
        TokenEv (lit "you") 1 (lit "default");
        EndEv (lit "default") (Some (lit "Hi you"))].
Proof.
  split; [reflexivity|].
  destruct (whitespace_delta_is_skipped None [delta (lit "Hi")]
              [delta (lit "you")] (Completes (Some (lit "Hi you"))) 0
              (lit "  ") eq_refl) as [H _].
  rewrite H. reflexivity.
Defined.

Lemma stateless_number_tokens i ds :
  Forall stateless_context (number_tokens (lit "default") i ds).
Proof.
  revert i. induction ds; intros; simpl; constructor; auto. reflexivity.
Qed.

(** C10. In a run started with [context_id=None] every Token and End
    dictionary has the string "default" as its [context_id] and every Error
    dictionary has [None]. *)
Theorem stateless_run_context_ids run i :
  Forall stateless_context (run_streaming run None i).
Proof.
  destruct run as [e|evs fin]; simpl.
  - repeat constructor.
  - rewrite stream_events_loop_shape. apply Forall_app. split.
    + apply stateless_number_tokens.
    + destruct fin; repeat constructor.
Qed.

End RunStreaming.

(** * The transport encoding *)

Section Encoding.

Implicit Types (s : pystr) (c x : N).

Lemma count_char_app x s1 s2 :
  count_char x (s1 ++ s2) = (count_char x s1 + count_char x s2)%nat.
Proof.
  induction s1 as [|y s1 IH]; simpl; auto.
  destruct (y =? x)%N; simpl; auto.
Qed.

Lemma hex_digit_printable n : (48 <= hex_digit n)%N.
Proof. unfold hex_digit. destruct (N.ltb_spec n 10); lia. Qed.

Lemma escape_char_no_line_break x c :
  line_break x -> count_char x (escape_char c) = O.
Proof.
  intros Hx. unfold escape_char.
  repeat match goal with
  | |- context [(c =? ?k)%N] => destruct (N.eqb_spec c k)
  end; try (destruct Hx; subst x; reflexivity).
  destruct (N.ltb_spec c 32).
  - pose proof (hex_digit_printable (c / 16)) as H1.
    pose proof (hex_digit_printable (c mod 16)) as H2.
    rewrite count_char_app. simpl.
    destruct (N.eqb_spec (hex_digit (c / 16)) x),
             (N.eqb_spec (hex_digit (c mod 16)) x);
      destruct Hx; subst x; unfold NEWLINE, CARRIAGE_RETURN in *;
      try lia; reflexivity.
  - simpl. destruct (N.eqb_spec c x); [|reflexivity].
    destruct Hx; subst x; unfold NEWLINE, CARRIAGE_RETURN in *; congruence.
Qed.

Lemma encode_basestring_no_line_break x s :
  line_break x -> count_char x (encode_basestring s) = O.
Proof.
  intros Hx. unfold encode_basestring. rewrite !count_char_app.
  assert (count_char x (concat (map escape_char s)) = O) as ->.
  { induction s as [|c s IH]; simpl; auto.
    now rewrite count_char_app, escape_char_no_line_break, IH. }
  destruct Hx; subst x; reflexivity.
Qed.

Lemma uint_str_no_line_break x d :
  line_break x -> count_char x (lit (NilEmpty.string_of_uint d)) = O.
Proof.
  intros Hx. induction d; simpl; auto;
    destruct Hx; subst x; simpl; auto.
Qed.

Lemma int_str_no_line_break x z :
  line_break x -> count_char x (int_str z) = O.
Proof.
  intros Hx. unfold int_str, NilZero.string_of_int.
  assert (Hu : forall d, count_char x (lit (NilZero.string_of_uint d)) = O).
  { intros d. unfold NilZero.string_of_uint.
    destruct d; try apply (uint_str_no_line_break x _ Hx).
    destruct Hx; subst x; reflexivity. }
  destruct (Z.to_int z) as [d|d]; [apply Hu|].
  change (lit (String "-" (NilZero.string_of_uint d)))
    with (45%N :: lit (NilZero.string_of_uint d)).
  simpl. rewrite Hu. destruct Hx; subst x; reflexivity.
Qed.

Lemma dumps_item_no_line_break x kv :
  line_break x -> count_char x (dumps_item kv) = O.
Proof.
  intros Hx. unfold dumps_item. rewrite !count_char_app.
  rewrite encode_basestring_no_line_break by assumption.
  assert (count_char x (dumps_value (snd kv)) = O) as ->.
  { destruct (snd kv); simpl.
    - now apply encode_basestring_no_line_break.
    - now apply int_str_no_line_break.
    - destruct Hx; subst x; reflexivity. }
  destruct Hx; subst x; reflexivity.
Qed.

Lemma join_items_no_line_break x items :
  line_break x ->
  Forall (fun item => count_char x item = O) items ->
  count_char x (join_items items) = O.
Proof.
  intros Hx Hall. induction Hall as [|item items Hitem Hall IH]; auto.
  destruct items as [|item' items]; [exact Hitem|].
  change (join_items (item :: item' :: items))
    with (item ++ lit ", " ++ join_items (item' :: items)).
  rewrite !count_char_app, Hitem, IH.
  destruct Hx; subst x; reflexivity.
Qed.

Lemma json_dumps_no_line_break x (data : pydict) :
  line_break x -> count_char x (json_dumps data) = O.
Proof.
  intros Hx. unfold json_dumps. rewrite !count_char_app.
  rewrite join_items_no_line_break; auto.
  - destruct Hx; subst x; reflexivity.
  - apply Forall_forall. intros item Hin.
    apply list_elem_of_In, in_map_iff in Hin. destruct Hin as [kv [<- _]].
    now apply dumps_item_no_line_break.
Qed.

Lemma format_sse_event_newlines (data : pydict) :
  count_char NEWLINE (_format_sse_event data) = 2%nat
  /\ count_char CARRIAGE_RETURN (_format_sse_event data) = O.
Proof.
  unfold _format_sse_event. rewrite !count_char_app.
  rewrite !json_dumps_no_line_break by (unfold line_break; auto).
  split; reflexivity.
Qed.

Lemma hex_value_digit n : (n < 16)%N -> hex_value (hex_digit n) = n.
Proof.
  intros Hn. unfold hex_value, hex_digit.
  destruct (N.ltb_spec n 10).
  - replace (48 + n <? 58)%N with true by (symmetry; apply N.ltb_lt; lia).
    lia.
  - replace (87 + n <? 58)%N with false by (symmetry; apply N.ltb_ge; lia).
    lia.
Qed.

Lemma decode_escape_char c (t : pystr) :
  decode_basestring (escape_char c ++ t) = c :: decode_basestring t.
Proof.
  unfold escape_char.
  repeat match goal with
  | |- context [(c =? ?k)%N] => destruct (N.eqb_spec c k); [by subst c|]
  end.
  destruct (N.ltb_spec c 32) as [Hlow|Hhigh].
  - change (lit "\u00") with [92; 117; 48; 48]%N.
    cbn [app decode_basestring].
    change (92 =? 92)%N with true. change (117 =? 117)%N with true.
    cbv iota.
    change (hex_value 48) with 0%N.
    rewrite !hex_value_digit
      by (try apply N.mod_lt; try apply N.Div0.div_lt_upper_bound; lia).
    f_equal. pose proof (N.div_mod c 16). lia.
  - cbn [app decode_basestring].
    destruct (N.eqb_spec c 92); [done|]. done.
Qed.

Lemma decode_escaped s :
  decode_basestring (concat (map escape_char s)) = s.
Proof.
  induction s as [|c s IH]; [done|]. simpl.
  by rewrite decode_escape_char, IH.
Qed.

Lemma hex_digit_plain n : hex_digit n <> 34%N /\ hex_digit n <> 92%N.
Proof. unfold hex_digit. destruct (N.ltb_spec n 10); lia. Qed.

Lemma read_escape_char c (t : pystr) :
  read_string_body (escape_char c ++ t)
  = match read_string_body t with
    | Some (body, rest) => Some (escape_char c ++ body, rest)
    | None => None
    end.
Proof.
  unfold escape_char.
  repeat match goal with
  | |- context [(c =? ?k)%N] =>
      destruct (N.eqb_spec c k);
        [subst c; simpl; by destruct (read_string_body t) as [[? ?]|]|]
  end.
  destruct (N.ltb_spec c 32) as [Hlow|Hhigh].
  - change (lit "\u00") with [92; 117; 48; 48]%N.
    destruct (hex_digit_plain (c / 16)) as [Ha1 Ha2].
    destruct (hex_digit_plain (c mod 16)) as [Hb1 Hb2].
    cbn [app read_string_body].
    change (92 =? 34)%N with false. change (92 =? 92)%N with true.
    change (48 =? 34)%N with false. change (48 =? 92)%N with false.
    cbv iota.
    apply N.eqb_neq in Ha1, Ha2, Hb1, Hb2. rewrite Ha1, Ha2, Hb1, Hb2.
    by destruct (read_string_body t) as [[? ?]|].
  - cbn [app read_string_body].
    destruct (N.eqb_spec c 34); [done|]. destruct (N.eqb_spec c 92); [done|].
    by destruct (read_string_body t) as [[? ?]|].
Qed.

Lemma read_escaped s (t : pystr) :
  read_string_body (concat (map escape_char s) ++ 34%N :: t)
  = Some (concat (map escape_char s), t).
Proof.
  induction s as [|c s IH]; [done|]. simpl.
  by rewrite <- app_assoc, read_escape_char, IH.
Qed.

Lemma encode_basestring_prefix_inj (s1 s2 t1 t2 : pystr) :
  encode_basestring s1 ++ t1 = encode_basestring s2 ++ t2 ->
  s1 = s2 /\ t1 = t2.
Proof.
  unfold encode_basestring, QUOTE. rewrite <- !app_assoc. simpl.
  intros Heq. injection Heq as Heq.
  apply (f_equal read_string_body) in Heq. rewrite !read_escaped in Heq.
  injection Heq as Hbody Hrest. split; [|done].
  rewrite <- (decode_escaped s1), <- (decode_escaped s2). by rewrite Hbody.
Qed.

Lemma lit_inj (a b : string) : lit a = lit b -> a = b.
Proof.
  unfold lit. intros Heq.
  rewrite <- (string_of_list_ascii_of_string a),
          <- (string_of_list_ascii_of_string b).
  f_equal. revert Heq.
  generalize (list_ascii_of_string a) (list_ascii_of_string b).
  induction l as [|x l IH]; intros [|y l']; simpl; try done.
  intros [= Hxy Hl]. f_equal; [|by apply IH].
  rewrite <- (ascii_N_embedding x), <- (ascii_N_embedding y). by rewrite Hxy.
Qed.

Lemma int_of_string_of_int (d : Decimal.int) :
  exists d', NilZero.int_of_string (NilZero.string_of_int d) = Some d'
             /\ Z.of_int d' = Z.of_int d.
Proof.
  destruct d as [[| | | | | | | | | |]|[| | | | | | | | | |]];
    try (exists (Decimal.Pos Decimal.zero); split; reflexivity);
    try (exists (Decimal.Neg (Decimal.D0 Decimal.Nil)); split; reflexivity);
    (eexists; split; [apply NilZero.isi; discriminate|reflexivity]).
Qed.

Lemma int_str_inj (z1 z2 : Z) : int_str z1 = int_str z2 -> z1 = z2.
Proof.
  unfold int_str. intros Heq. apply lit_inj in Heq.
  destruct (int_of_string_of_int (Z.to_int z1)) as (d1 & Hd1 & Hz1).
  destruct (int_of_string_of_int (Z.to_int z2)) as (d2 & Hd2 & Hz2).
  rewrite Heq, Hd2 in Hd1. injection Hd1 as ->.
  rewrite DecimalZ.of_to in Hz1, Hz2. congruence.
Qed.

Lemma uint_str_chars (d : Decimal.uint) (c : N) :
  c ∈ lit (NilEmpty.string_of_uint d) -> (48 <= c <= 57)%N.
Proof.
  induction d; simpl; intros Hc; [by apply elem_of_nil in Hc|..];
    (apply elem_of_cons in Hc as [->|Hc]; [simpl; lia|auto]).
Qed.

Lemma int_str_chars (z : Z) (c : N) :
  c ∈ int_str z -> c = 45%N \/ (48 <= c <= 57)%N.
Proof.
  unfold int_str, NilZero.string_of_int.
  assert (Hu : forall d, c ∈ lit (NilZero.string_of_uint d) ->
                         (48 <= c <= 57)%N).
  { intros d. unfold NilZero.string_of_uint.
    destruct d; try apply uint_str_chars.
    change (lit "0") with [48%N].
    intros Hc. apply elem_of_cons in Hc as [->|Hc]; [lia|].
    by apply elem_of_nil in Hc. }
  destruct (Z.to_int z) as [d|d]; [right; by apply (Hu d)|].
  change (lit (String "-" (NilZero.string_of_uint d)))
    with (45%N :: lit (NilZero.string_of_uint d)).
  intros Hc.
  apply elem_of_cons in Hc as [->|Hc]; [by left|right; by apply (Hu d)].
Qed.

Lemma int_str_not_nil (z : Z) : int_str z <> [].
Proof.
  unfold int_str, NilZero.string_of_int, NilZero.string_of_uint.
  destruct (Z.to_int z) as [[| | | | | | | | | |]|d]; done.
Qed.

Lemma int_str_prefix_inj (z1 z2 : Z) (t1 t2 : pystr) :
  item_end t1 -> item_end t2 ->
  int_str z1 ++ t1 = int_str z2 ++ t2 -> z1 = z2 /\ t1 = t2.
Proof.
  intros Ht1 Ht2 Heq.
  assert (Hgen : forall a1 a2 : pystr,
            (forall c, c ∈ a1 -> c <> 44%N) -> (forall c, c ∈ a2 -> c <> 44%N) ->
            a1 ++ t1 = a2 ++ t2 -> a1 = a2 /\ t1 = t2).
  { induction a1 as [|x a1 IH]; intros [|y a2] H1 H2 Happ; simpl in Happ.
    - done.
    - exfalso. destruct Ht1 as [->|[r ->]]; [done|].
      injection Happ as <- _. apply (H2 44%N); [left|done].
    - exfalso. destruct Ht2 as [->|[r ->]]; [done|].
      injection Happ as -> _. apply (H1 44%N); [left|done].
    - injection Happ as -> Happ.
      destruct (IH a2) as [-> ->]; auto.
      + intros c Hc. apply H1. by right.
      + intros c Hc. apply H2. by right. }
  destruct (Hgen (int_str z1) (int_str z2)) as [Hz Ht]; auto.
  - intros c Hc. apply int_str_chars in Hc. lia.
  - intros c Hc. apply int_str_chars in Hc. lia.
  - split; [by apply int_str_inj|done].
Qed.

Lemma dumps_value_prefix_inj (v1 v2 : json) (t1 t2 : pystr) :
  item_end t1 -> item_end t2 ->
  dumps_value v1 ++ t1 = dumps_value v2 ++ t2 -> v1 = v2 /\ t1 = t2.
Proof.
  intros Ht1 Ht2.
  destruct v1 as [s1|z1|], v2 as [s2|z2|]; simpl dumps_value; intros Heq.
  - apply encode_basestring_prefix_inj in Heq as [-> ->]. done.
  - exfalso. destruct (int_str z2) as [|c r] eqn:Hz;
      [by apply int_str_not_nil in Hz|].
    assert (Hc : c ∈ int_str z2) by (rewrite Hz; left).
    apply int_str_chars in Hc. unfold encode_basestring, QUOTE in Heq.
    simpl in Heq. injection Heq as <- _. lia.
  - done.
  - exfalso. destruct (int_str z1) as [|c r] eqn:Hz;
      [by apply int_str_not_nil in Hz|].
    assert (Hc : c ∈ int_str z1) by (rewrite Hz; left).
    apply int_str_chars in Hc. unfold encode_basestring, QUOTE in Heq.
    simpl in Heq. injection Heq as -> _. lia.
  - apply int_str_prefix_inj in Heq as [-> ->]; done.
  - exfalso. destruct (int_str z1) as [|c r] eqn:Hz;
      [by apply int_str_not_nil in Hz|].
    assert (Hc : c ∈ int_str z1) by (rewrite Hz; left).
    apply int_str_chars in Hc. simpl in Heq. injection Heq as -> _. lia.
  - done.
  - exfalso. destruct (int_str z2) as [|c r] eqn:Hz;
      [by apply int_str_not_nil in Hz|].
    assert (Hc : c ∈ int_str z2) by (rewrite Hz; left).
    apply int_str_chars in Hc. simpl in Heq. injection Heq as <- _. lia.
  - simpl in Heq. by simplify_eq.
Qed.

Lemma join_items_cons (x : pystr) (items : list pystr) :
  join_items (x :: items)
  = x ++ match items with [] => [] | _ => lit ", " ++ join_items items end.
Proof. destruct items; simpl; [by rewrite app_nil_r|done]. Qed.

Lemma join_items_inj (d1 d2 : pydict) :
  join_items (map dumps_item d1) = join_items (map dumps_item d2) -> d1 = d2.
Proof.
  revert d2. induction d1 as [|[k1 v1] d1 IH]; intros [|[k2 v2] d2].
  - done.
  - cbn [map]. rewrite join_items_cons. unfold dumps_item, encode_basestring.
    done.
  - cbn [map]. rewrite join_items_cons. unfold dumps_item, encode_basestring.
    done.
  - cbn [map]. rewrite !join_items_cons.
    change (dumps_item (k1, v1))
      with (encode_basestring k1 ++ lit ": " ++ dumps_value v1).
    change (dumps_item (k2, v2))
      with (encode_basestring k2 ++ lit ": " ++ dumps_value v2).
    rewrite <- !app_assoc. intros Heq.
    apply encode_basestring_prefix_inj in Heq as [-> Heq].
    apply app_inv_head in Heq.
    apply dumps_value_prefix_inj in Heq as [-> Heq].
    + f_equal. apply IH.
      destruct d1 as [|kv1 d1], d2 as [|kv2 d2]; cbn [map] in *; try done.
      by apply app_inv_head in Heq.
    + destruct d1; [by left|right; eexists; reflexivity].
    + destruct d2; [by left|right; eexists; reflexivity].
Qed.

Lemma json_dumps_inj (d1 d2 : pydict) :
  json_dumps d1 = json_dumps d2 -> d1 = d2.
Proof.
  unfold json_dumps. intros Heq.
  apply app_inv_head, app_inv_tail in Heq. by apply join_items_inj.
Qed.

Lemma format_sse_event_inj (d1 d2 : pydict) :
  _format_sse_event d1 = _format_sse_event d2 -> d1 = d2.
Proof.
  unfold _format_sse_event. intros Heq.
  apply app_inv_head, app_inv_tail in Heq. by apply json_dumps_inj.
Qed.

Lemma model_dump_inj (ev1 ev2 : sse_event) :
  model_dump ev1 = model_dump ev2 -> ev1 = ev2.
Proof.
  destruct ev1 as [t1 i1 c1|c1 f1|c1 e1 m1], ev2 as [t2 i2 c2|c2 f2|c2 e2 m2];
    simpl; intros Heq; try discriminate.
  - by simplify_eq.
  - by simplify_eq.
  - injection Heq as Hc -> ->. by destruct c1, c2; simplify_eq.
Qed.

(** C9. Each event model is encoded as one frame: the text "data: ", the
    model dumped as one JSON object, and two newlines.  The JSON text holds
    no newline and no carriage return, so the only newlines of the frame are
    the two that end it.  Nothing of the model is lost: the frame determines
    the event, and the dictionary it was made from; a newline of a string is
    written as a backslash and the letter n, a carriage return as a
    backslash and the letter r, and the text between the quotes reads back
    as the string. *)
Theorem format_sse_event_is_one_frame (ev : sse_event) :
  let payload := json_dumps (model_dump ev) in
  let frame := _format_sse_event (model_dump ev) in
  frame = lit "data: " ++ payload ++ [NEWLINE; NEWLINE]
  /\ head payload = Some 123%N
  /\ last payload = Some 125%N
  /\ count_char NEWLINE payload = O
  /\ count_char CARRIAGE_RETURN payload = O
  /\ count_char NEWLINE frame = 2%nat
  /\ (forall ev', _format_sse_event (model_dump ev') = frame -> ev' = ev)
  /\ (forall data, _format_sse_event data = frame -> data = model_dump ev)
  /\ escape_char NEWLINE = [92; 110]%N
  /\ escape_char CARRIAGE_RETURN = [92; 114]%N
  /\ (forall s, decode_basestring (concat (map escape_char s)) = s).
Proof.
  cbv zeta. split; [reflexivity|]. split; [reflexivity|]. split_and!.
  - unfold json_dumps. rewrite app_assoc. apply last_snoc.
  - apply json_dumps_no_line_break. now left.
  - apply json_dumps_no_line_break. now right.
  - apply format_sse_event_newlines.
  - intros ev' Heq. by apply model_dump_inj, format_sse_event_inj.
  - intros data Heq. by apply format_sse_event_inj.
  - reflexivity.
  - reflexivity.
  - apply decode_escaped.
Qed.

(** A Token whose text holds a newline: the frame, character by
    character. *)
Lemma newline_token_frame :
  _format_sse_event
    (model_dump (StreamTokenEvent [97; NEWLINE; 98]%N 7 (lit "c1")))
  = lit "data: {" ++ QUOTE ++ lit "token" ++ QUOTE ++ lit ": "
    ++ QUOTE ++ [97; 92; 110; 98]%N ++ QUOTE ++ lit ", "
    ++ QUOTE ++ lit "token_index" ++ QUOTE ++ lit ": 7, "
    ++ QUOTE ++ lit "context_id" ++ QUOTE ++ lit ": "
    ++ QUOTE ++ lit "c1" ++ QUOTE ++ lit ", "
    ++ QUOTE ++ lit "event_type" ++ QUOTE ++ lit ": "
    ++ QUOTE ++ lit "token" ++ QUOTE ++ lit "}" ++ [NEWLINE; NEWLINE].
Proof. reflexivity. Qed.

End Encoding.

(** * The sweep of abandoned connections *)

Section Sweep.

Variables (current_time : pyfloat) (timeout_seconds : Z).

Local Abbreviation step := (sweep_step current_time timeout_seconds).
Local Abbreviation gone := (swept current_time timeout_seconds).

Lemma sweep_step_gone (acc : registry * Z) item :
  gone item -> step acc item = (delete item.1 acc.1, acc.2 + 1).
Proof. unfold swept, sweep_step. by intros ->. Qed.

Lemma sweep_step_kept (acc : registry * Z) item :
  ~ gone item -> step acc item = acc.
Proof.
  unfold swept, sweep_step.
  by destruct (abandoned current_time timeout_seconds item.2).
Qed.

Lemma sweep_fold_count (l : list (pystr * connection)) (m : registry) (n : Z) :
  snd (fold_left step l (m, n)) = n + Z.of_nat (length (filter gone l)).
Proof.
  revert m n. induction l as [|item l IH]; intros m n; simpl; [lia|].
  rewrite filter_cons. destruct (decide (gone item)) as [Hg|Hg].
  - rewrite sweep_step_gone by done. rewrite IH. simpl. lia.
  - rewrite sweep_step_kept by done. apply IH.
Qed.

Lemma sweep_fold_lookup (l : list (pystr * connection)) (m : registry) (n : Z)
    (cid : pystr) :
  fst (fold_left step l (m, n)) !! cid =
    if decide (Exists (fun item => item.1 = cid /\ gone item) l)
    then None else m !! cid.
Proof.
  revert m n. induction l as [|item l IH]; intros m n.
  - case_decide as Hex; [by apply Exists_nil in Hex|done].
  - cbn [fold_left]. destruct (decide (gone item)) as [Hg|Hg].
    + rewrite sweep_step_gone by done. rewrite IH. simpl.
      destruct (decide (item.1 = cid)) as [<-|Hne].
      * rewrite lookup_delete_eq.
        rewrite (decide_True (P := Exists _ (item :: l)));
          [by case_decide|].
        by apply Exists_cons_hd.
      * rewrite lookup_delete_ne by done.
        repeat case_decide; try done.
        -- exfalso. rewrite Exists_cons in *. tauto.
        -- exfalso. rewrite Exists_cons in *. tauto.
    + rewrite sweep_step_kept by done. rewrite IH.
      repeat case_decide; try done; exfalso; rewrite Exists_cons in *; tauto.
Qed.

Lemma abandoned_iff (c : connection) :
  abandoned current_time timeout_seconds c = true <->
  status c = Active
  /\ float_gt_int (float_sub current_time (created_at c)) timeout_seconds
     = true.
Proof.
  unfold abandoned. destruct (status c); try (split; [done|by intros [? _]]).
  split; [done|by intros [_ ?]].
Qed.

Lemma cleanup_lookup (reg : registry) (cid : pystr) :
  fst (cleanup_abandoned_connections reg current_time timeout_seconds) !! cid
  = after_sweep current_time timeout_seconds (reg !! cid).
Proof.
  unfold cleanup_abandoned_connections. rewrite sweep_fold_lookup.
  case_decide as Hex.
  - apply Exists_exists in Hex as [[k c] [Hin [Hk Hg]]]. simpl in *. subst k.
    apply elem_of_map_to_list in Hin. rewrite Hin. simpl.
    unfold swept in Hg. simpl in Hg. by rewrite Hg.
  - destruct (reg !! cid) as [c|] eqn:Hc; [|done]. simpl.
    destruct (abandoned current_time timeout_seconds c) eqn:Hab; [|done].
    exfalso. apply Hex, Exists_exists. exists (cid, c).
    split; [by apply elem_of_map_to_list|by split].
Qed.

Lemma cleanup_keeps_the_rest (reg : registry) :
  fst (cleanup_abandoned_connections reg current_time timeout_seconds)
  = filter (fun item => ~ gone item) reg.
Proof.
  apply map_eq. intros cid. rewrite cleanup_lookup, map_lookup_filter.
  destruct (reg !! cid) as [c|]; [|done]. simpl.
  destruct (abandoned current_time timeout_seconds c) eqn:E.
  - rewrite option_guard_False; [done|]. intros H. by apply H.
  - rewrite option_guard_True; [done|]. unfold swept. simpl. congruence.
Qed.

Lemma cleanup_count (reg : registry) :
  snd (cleanup_abandoned_connections reg current_time timeout_seconds)
  = Z.of_nat (size (filter gone reg)).
Proof.
  unfold cleanup_abandoned_connections. rewrite sweep_fold_count.
  rewrite map_filter_alt, map_size_list_to_map; [lia|].
  apply (sublist_NoDup _ (map_to_list reg).*1).
  - apply NoDup_fst_map_to_list.
  - apply fmap_sublist, sublist_filter.
Qed.

Lemma cleanup_sizes (reg : registry) :
  size reg =
    (size (fst (cleanup_abandoned_connections reg current_time timeout_seconds))
     + size (filter gone reg))%nat.
Proof.
  rewrite cleanup_keeps_the_rest.
  rewrite <- (map_filter_union_complement gone reg) at 1.
  rewrite map_size_disj_union by apply map_disjoint_filter_complement.
  lia.
Qed.

Lemma cleanup_again (reg : registry) :
  let reg' :=
    fst (cleanup_abandoned_connections reg current_time timeout_seconds) in
  cleanup_abandoned_connections reg' current_time timeout_seconds = (reg', 0).
Proof.
  intros reg'.
  assert (Hkept : forall cid c, reg' !! cid = Some c ->
            abandoned current_time timeout_seconds c = false).
  { intros cid c. unfold reg'. rewrite cleanup_lookup.
    destruct (reg !! cid) as [c'|]; [|done]. simpl.
    destruct (abandoned current_time timeout_seconds c') eqn:E; [done|].
    by intros [= <-]. }
  apply injective_projections.
  - apply map_eq. intros cid. rewrite cleanup_lookup.
    destruct (reg' !! cid) as [c|] eqn:Hc; [|done]. simpl.
    by rewrite (Hkept _ _ Hc).
  - rewrite cleanup_count. simpl.
    replace (filter gone reg') with (∅ : registry); [done|].
    symmetry. apply map_eq. intros cid. rewrite lookup_empty.
    apply map_lookup_filter_None. right. intros c Hc Hg.
    unfold swept in Hg. simpl in Hg. rewrite (Hkept _ _ Hc) in Hg. done.
Qed.

Lemma cleanup_zero_iff (reg : registry) :
  snd (cleanup_abandoned_connections reg current_time timeout_seconds) = 0
  <-> forall cid c, reg !! cid = Some c ->
                    abandoned current_time timeout_seconds c = false.
Proof.
  rewrite cleanup_count. split.
  - intros Hsize cid c Hc.
    destruct (abandoned current_time timeout_seconds c) eqn:Hab; [|done].
    assert (Hin : filter gone reg !! cid = Some c)
      by (apply map_lookup_filter_Some; by split).
    assert (Hempty : filter gone reg = ∅) by (apply map_size_empty_iff; lia).
    rewrite Hempty, lookup_empty in Hin. done.
  - intros Hkept.
    replace (filter gone reg) with (∅ : registry); [done|].
    symmetry. apply map_eq. intros cid. rewrite lookup_empty.
    apply map_lookup_filter_None. right. intros c Hc Hg.
    unfold swept in Hg. simpl in Hg. rewrite (Hkept _ _ Hc) in Hg. done.
Qed.

End Sweep.

(** C7. The sweep deletes a connection exactly when its status is active
    and the float [current_time - created_at] is greater than the timeout;
    every other connection keeps its value; the returned count is the
    number of connections deleted.  A second sweep reads the clock again:
    at any reading it deletes exactly the connections the first sweep left
    that pass the test at that reading, and returns their number; at the
    same reading it deletes nothing and returns 0.  An active connection
    created at 0 and swept at 301 with the default timeout is deleted, with
    count 1, and any sweep of the registry this leaves returns 0. *)
Theorem cleanup_removes_exactly_abandoned (reg : registry) (now : pyfloat)
    (timeout : Z) :
  let '(reg', n) := cleanup_abandoned_connections reg now timeout in
  (forall cid, reg' !! cid = after_sweep now timeout (reg !! cid))
  /\ (forall c, abandoned now timeout c = true <->
        status c = Active
        /\ float_gt_int (float_sub now (created_at c)) timeout = true)
  /\ n = Z.of_nat (size (filter (swept now timeout) reg))
  /\ Z.of_nat (size reg) = Z.of_nat (size reg') + n
  /\ cleanup_abandoned_connections reg' now timeout = (reg', 0)
  /\ (forall now2,
        let '(reg'', n2) := cleanup_abandoned_connections reg' now2 timeout in
        (forall cid, reg'' !! cid = after_sweep now2 timeout (reg' !! cid))
        /\ n2 = Z.of_nat (size (filter (swept now2 timeout) reg'))
        /\ (n2 = 0 <->
            forall cid c, reg' !! cid = Some c ->
                          abandoned now2 timeout c = false))
  /\ (forall cid ctx i,
        cleanup_abandoned_connections
          ({[cid := Connection ctx i (float_of_int 0) Active]} : registry)
          (float_of_int 301) DEFAULT_TIMEOUT_SECONDS
        = (∅, 1))
  /\ (forall now' timeout',
        cleanup_abandoned_connections (∅ : registry) now' timeout' = (∅, 0)).
Proof.
  pose proof (cleanup_lookup now timeout reg) as Hlookup.
  pose proof (cleanup_count now timeout reg) as Hcount.
  pose proof (cleanup_sizes now timeout reg) as Hsizes.
  pose proof (cleanup_again now timeout reg) as Hagain.
  destruct (cleanup_abandoned_connections reg now timeout) as [reg' n].
  simpl in *. split_and!; auto.
  - apply abandoned_iff.
  - lia.
  - intros now2.
    pose proof (cleanup_lookup now2 timeout reg') as Hlookup2.
    pose proof (cleanup_count now2 timeout reg') as Hcount2.
    pose proof (cleanup_zero_iff now2 timeout reg') as Hzero2.
    destruct (cleanup_abandoned_connections reg' now2 timeout) as [reg'' n2].
    simpl in *. by split_and!.
  - intros cid ctx i. unfold cleanup_abandoned_connections.
    rewrite map_to_list_singleton. simpl.
    unfold sweep_step. simpl. by rewrite delete_singleton_eq.
Qed.

(** Two sweeps in succession with no new connection, the second of which
    deletes a connection: at the reading 300 the connection created at 0 is
    exactly 300 old and stays, at the reading 301 it is deleted. *)
Lemma second_sweep_removes_aged_connection :
  let first :=
    cleanup_abandoned_connections old_registry (float_of_int 300)
      DEFAULT_TIMEOUT_SECONDS in
  let second :=
    cleanup_abandoned_connections first.1 (float_of_int 301)
      DEFAULT_TIMEOUT_SECONDS in
  first = (old_registry, 0) /\ second = (∅, 1) /\ second.2 <> 0.
Proof. vm_compute. by split_and!. Qed.

(** The age is the rounded difference of the two floats: a connection
    created at 0.1 and swept at 300.1 is exactly 300.0 old and stays. *)
Lemma float_age_is_rounded :
  let tenth := float_div (float_of_int 1) (float_of_int 10) in
  let now := float_div (float_of_int 3001) (float_of_int 10) in
  float_sub now tenth = float_of_int 300
  /\ abandoned now DEFAULT_TIMEOUT_SECONDS (Connection None 0 tenth Active)
     = false
  /\ cleanup_abandoned_connections
       ({[ lit "default-0.1" := Connection None 0 tenth Active ]} : registry)
       now DEFAULT_TIMEOUT_SECONDS
     = ({[ lit "default-0.1" := Connection None 0 tenth Active ]}, 0).
Proof. vm_compute. by split_and!. Qed.

(** * The generator [create_stream] and the registry *)

Section Generator.

Context `{Runtime}.

Implicit Types (g : generator) (reg : registry) (cid : pystr)
  (ctx : option pystr) (rest : list agent_event).

Lemma finally_cleanup_delete cid reg : finally_cleanup cid reg = delete cid reg.
Proof.
  unfold finally_cleanup. destruct (reg !! cid) eqn:E; [done|].
  by rewrite delete_id.
Qed.

Lemma finally_cleanup_lookup cid reg : finally_cleanup cid reg !! cid = None.
Proof. rewrite finally_cleanup_delete. apply lookup_delete_eq. Qed.

Lemma run_streaming_nonempty run ctx i : run_streaming run ctx i <> [].
Proof.
  destruct run as [e|evs fin]; simpl; [done|].
  rewrite stream_events_loop_shape. by destruct (number_tokens _ _ _).
Qed.

(** Pulling from an exhausted [run_streaming] finishes through [finally];
    otherwise the generator is suspended again, under the same identifier,
    and the registry is as it was. *)
Lemma pull_event_cases cid ctx rest reg :
  (rest = []
   /\ pull_event cid ctx rest reg
      = (StopAsyncIteration, Finished, finally_cleanup cid reg))
  \/ (exists frame pt rest',
        pull_event cid ctx rest reg
        = (Yielded frame, Suspended cid ctx pt rest', reg)
        /\ (resumptions_left (Suspended cid ctx pt rest') <= length rest + 1)%nat).
Proof.
  destruct rest as [|[token i c|c [out|]|c code msg] rest']; simpl.
  - by left.
  - right. destruct (0 <=? i); do 3 eexists; (split; [done|simpl; lia]).
  - right. do 3 eexists; (split; [done|simpl; lia]).
  - right. do 3 eexists; (split; [done|simpl; lia]).
  - right. do 3 eexists; (split; [done|simpl; lia]).
Qed.

Lemma create_stream_cases run ctx i t_id t_created reg :
  exists frame pt rest,
    create_stream run ctx i t_id t_created reg
    = (Yielded frame, Suspended (make_connection_id ctx t_id) ctx pt rest,
       <[make_connection_id ctx t_id := new_connection ctx i t_created]> reg)
    /\ (resumptions_left (Suspended (make_connection_id ctx t_id) ctx pt rest)
        <= length (run_streaming run ctx i) + 1)%nat.
Proof.
  unfold create_stream.
  destruct (pull_event_cases (make_connection_id ctx t_id) ctx
              (run_streaming run ctx i)
              (<[make_connection_id ctx t_id := new_connection ctx i t_created]> reg))
    as [[Hnil _]|(frame & pt & rest & Heq & Hle)].
  - by apply run_streaming_nonempty in Hnil.
  - exists frame, pt, rest. by split.
Qed.

(** A resumption either finishes the generator, and then the identifier is
    not in the registry, or suspends it under the same identifier with
    fewer resumptions left. *)
Lemma anext_cases cid ctx pt rest reg :
  let g := Suspended cid ctx pt rest in
  (exists r, (anext g reg).1 = (r, Finished) /\ (anext g reg).2 !! cid = None)
  \/ (exists r pt' rest',
        (anext g reg).1 = (r, Suspended cid ctx pt' rest')
        /\ (resumptions_left (Suspended cid ctx pt' rest')
            < resumptions_left g)%nat).
Proof.
  assert (Hpull : forall reg',
    (exists r, (pull_event cid ctx rest reg').1 = (r, Finished)
          /\ (pull_event cid ctx rest reg').2 !! cid = None)
    \/ (exists r pt' rest',
          (pull_event cid ctx rest reg').1 = (r, Suspended cid ctx pt' rest')
          /\ (resumptions_left (Suspended cid ctx pt' rest')
              < length rest + 2)%nat)).
  { intros reg'.
    destruct (pull_event_cases cid ctx rest reg')
      as [[_ ->]|(frame & pt' & rest' & -> & Hle)].
    - left. eexists. split; [done|]. apply finally_cleanup_lookup.
    - right. do 3 eexists. split; [done|]. lia. }
  simpl. unfold update_connection.
  destruct pt; destruct (reg !! cid) as [c|] eqn:Hc;
    try apply Hpull;
    try (right; do 3 eexists; split; [done|simpl; lia]).
  - left. eexists. split; [done|]. apply finally_cleanup_lookup.
  - left. eexists. split; [done|]. apply finally_cleanup_lookup.
Qed.

Lemma aclose_released cid ctx pt rest reg :
  aclose (Suspended cid ctx pt rest) reg = (Finished, delete cid reg)
  /\ delete cid reg !! cid = None.
Proof.
  simpl. rewrite finally_cleanup_delete. split; [done|apply lookup_delete_eq].
Qed.

(** Whatever the consumer and the other tasks do, a generator started under
    [cid] is finished or still suspended under [cid]. *)
Lemma run_schedule_id steps g reg cid :
  generator_id g = Some cid ->
  let g' := (run_schedule steps g reg).1 in
  g' = Finished \/ generator_id g' = Some cid.
Proof.
  assert (Hfin : forall steps reg, (run_schedule steps Finished reg).1 = Finished).
  { clear. induction steps as [|[| |f] steps IH]; intros reg; simpl; auto. }
  revert g reg. induction steps as [|[| |f] steps IH]; intros g reg Hg; simpl.
  - by right.
  - destruct g as [cid' ctx pt rest|]; [|done]. simpl in Hg. simplify_eq.
    destruct (anext_cases cid ctx pt rest reg)
      as [(r & Heq & _)|(r & pt' & rest' & Heq & _)];
      destruct (anext (Suspended cid ctx pt rest) reg) as [[r' g'] reg'];
      simpl in Heq; simplify_eq.
    + left. apply Hfin.
    + by apply IH.
  - destruct g as [cid' ctx pt rest|]; [|done]. simpl. left. apply Hfin.
  - by apply IH.
Qed.

Lemma run_schedule_finishes steps g reg :
  (resumptions_left g <= count_anext steps)%nat ->
  (run_schedule steps g reg).1 = Finished.
Proof.
  assert (Hfin : forall steps reg, (run_schedule steps Finished reg).1 = Finished).
  { clear. induction steps as [|[| |f] steps IH]; intros reg; simpl; auto. }
  revert g reg. induction steps as [|[| |f] steps IH]; intros g reg Hle; simpl.
  - destruct g as [? ? [] ?|]; simpl in *; [lia..|done].
  - destruct g as [cid ctx pt rest|]; [|apply Hfin].
    destruct (anext_cases cid ctx pt rest reg)
      as [(r & Heq & _)|(r & pt' & rest' & Heq & Hlt)];
      destruct (anext (Suspended cid ctx pt rest) reg) as [[r' g'] reg'];
      simpl in Heq; simplify_eq.
    + apply Hfin.
    + apply IH. cbn [count_anext] in Hle. cbv zeta in Hlt. lia.
  - destruct g as [cid ctx pt rest|]; simpl; apply Hfin.
  - by apply IH.
Qed.

(** C5. A started stream has its entry in the registry, and whatever the
    consumer and the other tasks do afterwards, the resumption that finishes
    the generator (exhaustion, or an exception leaving it) and the closing
    of a suspended generator both leave the registry without the stream's
    identifier.  A consumer that keeps resuming does finish the generator,
    after at most one resumption more than [run_streaming] yields items. *)
Theorem stream_releases_registry_entry run ctx i t_id t_created reg0 steps :
  let cid := make_connection_id ctx t_id in
  let start := create_stream run ctx i t_id t_created reg0 in
  let now := run_schedule steps start.1.2 start.2 in
  start.2 !! cid = Some (new_connection ctx i t_created)
  /\ (is_finished now.1 = false ->
       (is_finished (anext now.1 now.2).1.2 = true ->
          (anext now.1 now.2).2 !! cid = None)
       /\ is_finished (aclose now.1 now.2).1 = true
       /\ (aclose now.1 now.2).2 !! cid = None)
  /\ ((resumptions_left start.1.2 <= count_anext steps)%nat ->
        is_finished now.1 = true)
  /\ (resumptions_left start.1.2 <= length (run_streaming run ctx i) + 1)%nat.
Proof.
  intros cid start now.
  destruct (create_stream_cases run ctx i t_id t_created reg0)
    as (frame & pt & rest & Hstart & Hle).
  fold cid in Hstart, Hle. subst now. unfold start. rewrite Hstart. simpl.
  split_and!.
  - apply lookup_insert_eq.
  - intros Hnot.
    destruct (run_schedule_id steps (Suspended cid ctx pt rest)
                (<[cid := new_connection ctx i t_created]> reg0) cid eq_refl)
      as [Hfin|Hid].
    { rewrite Hfin in Hnot. done. }
    destruct (run_schedule steps _ _) as [g reg]. simpl in *.
    destruct g as [cid' ctx' pt' rest'|]; [|done]. simpl in Hid. simplify_eq.
    split_and!.
    + intros Hfin.
      destruct (anext_cases cid ctx' pt' rest' reg)
        as [(r & _ & Hnone)|(r & pt'' & rest'' & Heq & _)]; [done|].
      rewrite Heq in Hfin. done.
    + done.
    + destruct (aclose_released cid ctx' pt' rest' reg) as [-> Hnone].
      exact Hnone.
  - intros Hsteps. by rewrite run_schedule_finishes.
  - exact Hle.
Qed.

(** Resuming past a Token yield records the index of that Token; the
    entry must still be in the registry. *)
Lemma anext_records_token cid ctx j rest reg :
  is_Some (reg !! cid) -> rest <> [] ->
  exists r pt rest' c,
    anext (Suspended cid ctx (AtToken j) rest) reg
    = (r, Suspended cid ctx pt rest', <[cid := set_last_token_index j c]> reg)
    /\ reg !! cid = Some c.
Proof.
  intros [c Hc] Hrest. simpl. unfold update_connection. rewrite Hc.
  destruct (pull_event_cases cid ctx rest
              (<[cid := set_last_token_index j c]> reg))
    as [[Hnil _]|(frame & pt & rest' & -> & _)]; [done|].
  by exists (Yielded frame), pt, rest', c.
Qed.

(** An undisturbed run over consecutive Token dictionaries: after [S k]
    resumptions the registry holds the index of the Token yielded [k]
    resumptions after the one the generator was suspended at. *)
Lemma anext_n_tracks_tokens cid ctx name tail (k : nat) :
  tail <> [] ->
  forall ds j reg,
    0 <= j -> is_Some (reg !! cid) -> (k <= length ds)%nat ->
    tracked_index cid
      (anext_n (S k)
         (Suspended cid ctx (AtToken j) (number_tokens name (j + 1) ds ++ tail))
         reg).2
    = Some (j + Z.of_nat k).
Proof.
  intros Htail. unfold tracked_index.
  induction k as [|k IH]; intros ds j reg Hj Hreg Hk.
  - destruct (anext_records_token cid ctx j
                (number_tokens name (j + 1) ds ++ tail) reg Hreg)
      as (r & pt & rest' & c & Heq & Hc).
    { destruct ds; simpl; [done|discriminate]. }
    cbn [anext_n]. rewrite Heq. simpl. rewrite lookup_insert_eq. simpl.
    f_equal. lia.
  - destruct ds as [|d ds]; [simpl in Hk; lia|].
    destruct Hreg as [c Hc].
    change (anext_n (S (S k)) ?g reg)
      with (let '(_, g', reg') := anext g reg in anext_n (S k) g' reg').
    simpl number_tokens. simpl app. simpl anext.
    unfold update_connection. rewrite Hc.
    replace (0 <=? j + 1) with true by (symmetry; apply Z.leb_le; lia).
    rewrite (IH ds (j + 1)); [f_equal; lia|lia| |simpl in Hk; lia].
    rewrite lookup_insert_eq. by eexists.
Qed.

(** The value of [last_token_index] that the registry holds after [k]
    undisturbed resumptions of a stream whose first [k] items are Tokens. *)
Lemma tracked_index_closed_form run ctx i t_id t_created reg0 (k : nat) :
  0 <= i -> (k <= length (tokens_of_run run))%nat ->
  let cid := make_connection_id ctx t_id in
  let start := create_stream run ctx i t_id t_created reg0 in
  tracked_index cid (anext_n k start.1.2 start.2).2
  = Some (i + Z.max 0 (Z.of_nat k - 1)).
Proof.
  intros Hi Hk cid start. destruct k as [|k].
  - destruct (create_stream_cases run ctx i t_id t_created reg0)
      as (frame & pt & rest & Hstart & _).
    unfold start. rewrite Hstart. simpl. unfold tracked_index.
    fold cid. rewrite lookup_insert_eq. simpl. f_equal. lia.
  - destruct run as [e|evs fin]; [simpl in Hk; lia|]. simpl in Hk.
    unfold start, create_stream. fold cid. simpl run_streaming.
    rewrite stream_events_loop_shape.
    destruct (kept_deltas evs) as [|d ds]; [simpl in Hk; lia|].
    simpl number_tokens. simpl app. simpl pull_event.
    replace (0 <=? i) with true by (symmetry; apply Z.leb_le; lia).
    cbn [fst snd].
    rewrite anext_n_tracks_tokens; [f_equal; lia|done|lia| |simpl in Hk; lia].
    rewrite lookup_insert_eq. by eexists.
Qed.

(** C4, as the code has it.  The entry starts at the index passed by the
    caller.  The index of a Token is written when the generator is resumed
    past that Token: after the first such resumption the entry still holds
    the starting value, and after the [k]-th one it holds
    [last_token_index + k - 1], the index of the [k]-th Token.  The value
    never decreases and grows by one with each Token after the first. *)
Theorem tracked_index_is_last_token_index run ctx i t_id t_created reg0
    (k : nat) (Hi : 0 <= i) (Hk : (k <= length (tokens_of_run run))%nat) :
  let cid := make_connection_id ctx t_id in
  let start := create_stream run ctx i t_id t_created reg0 in
  let tracked (n : nat) := tracked_index cid (anext_n n start.1.2 start.2).2 in
  tracked O = Some i
  /\ tracked k = Some (i + Z.max 0 (Z.of_nat k - 1))
  /\ ((1 <= k)%nat -> tracked k = Some (i + Z.of_nat k - 1))
  /\ forall n, (n <= k)%nat ->
       exists a b, tracked n = Some a /\ tracked k = Some b /\ a <= b.
Proof.
  intros cid start tracked. subst tracked. cbv beta.
  pose proof (fun n Hn =>
    tracked_index_closed_form run ctx i t_id t_created reg0 n Hi Hn) as Hform.
  cbv zeta in Hform. fold cid in Hform. fold start in Hform.
  split_and!.
  - rewrite Hform by lia. f_equal. lia.
  - by apply Hform.
  - intros Hpos. rewrite Hform by done. f_equal. lia.
  - intros n Hn. do 2 eexists. split_and!.
    + apply Hform. lia.
    + by apply Hform.
    + lia.
Qed.

(** C3, what the code does.  The Error dictionary of [run_streaming] and
    the frame [create_stream] makes of it carry [str(e)] of the exception as
    their message, and the handler of [create_stream] does the same with its
    own exceptions: the text of the failure reaches the consumer. *)
Theorem error_message_is_exception_text e evs ctx i t_id t_created reg0 :
  run_streaming (SetupRaises e) ctx i
    = [ErrorEv ctx STREAMING_ERROR (exn_str e)]
  /\ last (run_streaming (Streamed evs (Raises e)) ctx i)
     = Some (ErrorEv ctx STREAMING_ERROR (exn_str e))
  /\ (create_stream (SetupRaises e) ctx i t_id t_created reg0).1.1
     = Yielded (_format_sse_event (model_dump
         (StreamErrorEvent ctx STREAMING_ERROR (exn_str e))))
  /\ (forall cid f reg,
        (handle_exception cid ctx f reg).1.1
        = Yielded (_format_sse_event (model_dump
            (StreamErrorEvent ctx STREAMING_SERVICE_ERROR (failure_str f)))))
  /\ run_streaming (SetupRaises store_failure) (Some (lit "c1")) 0
     = [ErrorEv (Some (lit "c1")) (lit "STREAMING_ERROR")
          (lit "unable to open database file /srv/chatwait/c1.db")].
Proof.
  split_and!; try reflexivity.
  simpl. rewrite stream_events_loop_shape. apply last_snoc.
Qed.

(** C6, what the code does.  The identifier is made of the context name and
    the clock reading only.  Two streams started for the same context at the
    same reading share one identifier: the second registration replaces the
    first entry, and the cleanup of the first stream deletes the entry of
    the second.  A stream without context and a stream for the context
    "default" share their identifier too. *)
Theorem same_reading_same_connection_id runA runB ctx i j t tA tB reg0 :
  let cid := make_connection_id ctx t in
  let startA := create_stream runA ctx i t tA reg0 in
  let startB := create_stream runB ctx j t tB startA.2 in
  generator_id startA.1.2 = Some cid
  /\ generator_id startB.1.2 = Some cid
  /\ startA.2 !! cid = Some (new_connection ctx i tA)
  /\ startB.2 !! cid = Some (new_connection ctx j tB)
  /\ size startB.2 = size startA.2
  /\ (aclose startA.1.2 startB.2).2 !! cid = None
  /\ make_connection_id None t = make_connection_id (Some (lit "default")) t.
Proof.
  intros cid startA startB.
  destruct (create_stream_cases runA ctx i t tA reg0)
    as (frameA & ptA & restA & HA & _).
  fold cid in HA. fold startA in HA.
  destruct (create_stream_cases runB ctx j t tB startA.2)
    as (frameB & ptB & restB & HB & _).
  fold cid in HB. fold startB in HB.
  rewrite HB. rewrite HA. simpl. split_and!; try done.
  - apply lookup_insert_eq.
  - apply lookup_insert_eq.
  - apply map_size_insert_Some. rewrite lookup_insert_eq. by eexists.
  - apply finally_cleanup_lookup.
Qed.

(** Past a yield of the loop, the generator records what it has to record
    and pulls the next dictionary; the entry stays in the registry. *)
Lemma anext_pulls cid ctx pt rest reg :
  is_Some (reg !! cid) -> pt <> AtHandler ->
  exists reg', is_Some (reg' !! cid)
    /\ anext (Suspended cid ctx pt rest) reg = pull_event cid ctx rest reg'.
Proof.
  intros [c Hc] Hpt. simpl. unfold update_connection. rewrite Hc.
  destruct pt; try done; eexists; (split; [|done]);
    rewrite lookup_insert_eq; by eexists.
Qed.

(** An undisturbed stream relays the dictionaries of [run_streaming] one
    frame each, as long as every model accepts its fields. *)
Lemma frames_of_accepted cid ctx rest reg :
  is_Some (reg !! cid) ->
  Forall (fun ev => is_Some (to_model ev)) rest ->
  frames (length rest) (pull_event cid ctx rest reg) = frames_of rest.
Proof.
  intros Hreg Hall. revert reg Hreg.
  induction Hall as [|ev rest [m Hm] Hall IH]; intros reg Hreg; [done|].
  assert (Hpull : exists pt, pt <> AtHandler
            /\ pull_event cid ctx (ev :: rest) reg
               = (Yielded (_format_sse_event (model_dump m)),
                  Suspended cid ctx pt rest, reg)).
  { destruct ev as [token i c|c [out|]|c code msg]; simpl in *.
    - destruct (0 <=? i); [|done]. simplify_eq.
      eexists. split; [|reflexivity]. done.
    - simplify_eq. eexists. split; [|reflexivity]. done.
    - done.
    - simplify_eq. eexists. split; [|reflexivity]. done. }
  destruct Hpull as (pt & Hpt & ->).
  cbn [frames_of]. rewrite Hm. cbn [length frames]. f_equal.
  destruct (anext_pulls cid ctx pt rest reg Hreg Hpt) as (reg' & Hreg' & ->).
  by apply IH.
Qed.

Lemma number_tokens_accepted name i ds :
  0 <= i ->
  Forall (fun ev => is_Some (to_model ev)) (number_tokens name i ds).
Proof.
  revert i. induction ds as [|d ds IH]; intros i Hi; simpl; constructor.
  - simpl. replace (0 <=? i) with true by (symmetry; apply Z.leb_le; lia).
    by eexists.
  - apply IH. lia.
Qed.

(** The frames of a stream that nothing disturbs: when the starting index
    is not negative and the final output, if the run completes, is a string,
    every dictionary of [run_streaming] becomes one frame, in order. *)
Lemma undisturbed_stream_frames run ctx i t_id t_created reg0 :
  0 <= i -> final_output_is_str run ->
  frames (length (run_streaming run ctx i))
         (create_stream run ctx i t_id t_created reg0)
  = frames_of (run_streaming run ctx i)
  /\ length (frames_of (run_streaming run ctx i))
     = length (run_streaming run ctx i).
Proof.
  intros Hi Hfinal.
  assert (Hall : Forall (fun ev => is_Some (to_model ev))
                   (run_streaming run ctx i)).
  { destruct run as [e|evs fin]; simpl.
    - repeat constructor. by eexists.
    - rewrite stream_events_loop_shape. apply Forall_app. split.
      + by apply number_tokens_accepted.
      + repeat constructor. destruct fin as [[out|]|e]; simpl in *;
          try done; by eexists. }
  split.
  - unfold create_stream. apply frames_of_accepted; [|done].
    rewrite lookup_insert_eq. by eexists.
  - induction Hall as [|ev rest [m Hm] Hall IH]; [done|].
    simpl. rewrite Hm. simpl. by rewrite IH.
Qed.

(** Two texts joined by a dash determine their parts when the second part
    has no dash. *)
Lemma dash_join_inj (l1 l2 r1 r2 : pystr) :
  DASH ∉ r1 -> DASH ∉ r2 ->
  l1 ++ lit "-" ++ r1 = l2 ++ lit "-" ++ r2 -> l1 = l2 /\ r1 = r2.
Proof.
  change (lit "-") with [DASH]. intros H1 H2. revert l2.
  induction l1 as [|a l1 IH]; intros [|b l2] Heq; simpl in Heq.
  - by simplify_eq.
  - injection Heq as _ Heq. exfalso. apply H1. rewrite Heq.
    apply list_elem_of_In, in_or_app. right. simpl. auto.
  - injection Heq as _ Heq. exfalso. apply H2. rewrite <- Heq.
    apply list_elem_of_In, in_or_app. right. simpl. auto.
  - injection Heq as -> Heq. destruct (IH _ Heq) as [-> ->]. done.
Qed.

(** What does hold of the identifiers: when the clock is never printed with
    a dash, equal identifiers come from equal context names and equal clock
    texts, so streams started at readings with different texts have
    different identifiers. *)
Lemma make_connection_id_inj ctx1 ctx2 t1 t2 :
  (forall t, DASH ∉ float_str t) ->
  make_connection_id ctx1 t1 = make_connection_id ctx2 t2 ->
  or_default ctx1 = or_default ctx2 /\ float_str t1 = float_str t2.
Proof. intros Hdash. apply dash_join_inj; apply Hdash. Qed.

End Generator.

(** * The generator on concrete runs *)

Section Examples.

#[local] Existing Instance example_runtime.

(** Scenario A of the specification. *)
Example scenario_hi_there :
  run_streaming hi_run None 0
  = [TokenEv (lit "Hi") 0 (lit "default");
     TokenEv (lit " there") 1 (lit "default");
     EndEv (lit "default") (Some (lit "Hi there"))].
Proof. reflexivity. Qed.

(** Scenario B: numbering starts at the index passed by the caller. *)
Example scenario_resume_at_three :
  head (run_streaming hi_run (Some (lit "c1")) 3)
  = Some (TokenEv (lit "Hi") 3 (lit "c1")).
Proof. reflexivity. Qed.

(** Scenario C: the runner raises after one delta. *)
Example scenario_raise_after_one_delta :
  run_streaming (Streamed [delta (lit "Hi")] (Raises store_failure)) None 0
  = [TokenEv (lit "Hi") 0 (lit "default");
     ErrorEv None (lit "STREAMING_ERROR") (exn_str store_failure)].
Proof. reflexivity. Qed.

(** The frames of scenario A, drained without disturbance, and the registry
    left behind. *)
Example scenario_hi_there_frames :
  let start := create_stream hi_run None 0 clock clock ∅ in
  frames 5 start
  = [lit "data: {" ++ [34%N] ++ lit "token" ++ [34%N] ++ lit ": " ++ [34%N]
       ++ lit "Hi" ++ [34%N] ++ lit ", " ++ [34%N] ++ lit "token_index"
       ++ [34%N] ++ lit ": 0, " ++ [34%N] ++ lit "context_id" ++ [34%N]
       ++ lit ": " ++ [34%N] ++ lit "default" ++ [34%N] ++ lit ", " ++ [34%N]
       ++ lit "event_type" ++ [34%N] ++ lit ": " ++ [34%N] ++ lit "token"
       ++ [34%N] ++ lit "}" ++ [NEWLINE; NEWLINE];
     _format_sse_event (model_dump
       (StreamTokenEvent (lit " there") 1 (lit "default")));
     _format_sse_event (model_dump
       (StreamEndEvent (lit "default") (lit "Hi there")))]
  /\ (anext_n 3 start.1.2 start.2) = (Finished, ∅).
Proof. vm_compute. split; reflexivity. Qed.

(** A negative starting index is refused by the Token model: the stream
    consists of the handler's Error frame. *)
Example negative_index_is_refused :
  frames 5 (create_stream hi_run None (-1) clock clock ∅)
  = [_format_sse_event (model_dump
       (StreamErrorEvent None STREAMING_SERVICE_ERROR
          (failure_str (InvalidTokenIndex (-1)))))].
Proof. vm_compute. reflexivity. Qed.

(** C4 as stated fails: with starting index 0, once one Token frame has been
    delivered the entry holds 0, not 0 + 1, both while the generator is
    suspended at that Token and after it has been resumed past it. *)
Lemma last_token_index_not_offset_plus_count :
  let run := Streamed [delta (lit "Hi")] (Completes (Some (lit "Hi"))) in
  let cid := make_connection_id None clock in
  let start := create_stream run None 0 clock clock ∅ in
  start.1.1 = Yielded (_format_sse_event (model_dump
                (StreamTokenEvent (lit "Hi") 0 (lit "default"))))
  /\ tracked_index cid start.2 = Some 0
  /\ tracked_index cid (anext_n 1 start.1.2 start.2).2 = Some 0
  /\ tracked_index cid start.2 <> Some (0 + 1)
  /\ tracked_index cid (anext_n 1 start.1.2 start.2).2
     <> Some (0 + 1).
Proof. vm_compute. split_and!; congruence. Qed.

Lemma tracked_index_is_last_token_index_witness :
  0 <= 3
  /\ (2 <= length (tokens_of_run hi_run))%nat
  /\ tracked_index (make_connection_id (Some (lit "c1")) clock)
       (anext_n 2
          (create_stream hi_run (Some (lit "c1")) 3
             clock clock ∅).1.2
          (create_stream hi_run (Some (lit "c1")) 3
             clock clock ∅).2).2
     = Some 4.
Proof.
  assert (H3 : 0 <= 3) by lia.
  assert (H2 : (2 <= length (tokens_of_run hi_run))%nat) by (vm_compute; lia).
  split; [exact H3|]. split; [exact H2|].
  destruct (tracked_index_is_last_token_index hi_run
              (Some (lit "c1")) 3 clock clock ∅ 2 H3 H2) as (_ & Hk & _).
  exact Hk.
Defined.

Lemma stream_releases_registry_entry_witness :
  let cid := make_connection_id None clock in
  let start := create_stream hi_run None 0 clock clock ∅ in
  let now := run_schedule
               [Anext; Interfere (fun reg => delete cid reg)]
               start.1.2 start.2 in
  is_finished now.1 = false
  /\ (aclose now.1 now.2).2 !! cid = None
  /\ ((resumptions_left start.1.2 <= count_anext [Anext; Anext; Anext; Anext])%nat
      /\ is_finished
           (run_schedule [Anext; Anext; Anext; Anext]
              start.1.2 start.2).1 = true).
Proof.
  intros cid start now.
  assert (Hnot : is_finished now.1 = false) by (vm_compute; reflexivity).
  assert (Hleft : (resumptions_left start.1.2
                   <= count_anext [Anext; Anext; Anext; Anext])%nat)
    by (vm_compute; lia).
  split; [exact Hnot|]. split.
  - destruct (stream_releases_registry_entry hi_run None 0
                clock clock ∅ [Anext; Interfere (fun reg => delete cid reg)])
      as (_ & Hrel & _).
    destruct (Hrel Hnot) as (_ & _ & Hnone). exact Hnone.
  - split; [exact Hleft|].
    destruct (stream_releases_registry_entry hi_run None 0
                clock clock ∅ [Anext; Anext; Anext; Anext]) as (_ & _ & Hfin & _).
    exact (Hfin Hleft).
Defined.

End Examples.

(** * Splitting and stripping *)

Section Words.

Implicit Types (s t w word : pystr).

Lemma rev_cons_not_nil {A} (x : A) (l : list A) : rev (x :: l) <> [].
Proof. simpl. by destruct (rev l). Qed.

Lemma split_from_words word s :
  no_space word = true ->
  Forall (fun w => w <> [] /\ no_space w = true) (split_from word s).
Proof.
  unfold no_space. revert word.
  induction s as [|c s IH]; intros word Hword; simpl.
  - destruct word as [|x word]; constructor; [|constructor].
    split; [apply rev_cons_not_nil|]. by rewrite forallb_rev.
  - destruct (isspace c) eqn:Hc.
    + destruct word as [|x word]; [by apply IH|].
      constructor; [|by apply IH].
      split; [apply rev_cons_not_nil|]. by rewrite forallb_rev.
    + apply IH. simpl. by rewrite Hc.
Qed.

Lemma split_from_concat word s :
  concat (split_from word s) = rev word ++ non_space_chars s.
Proof.
  unfold non_space_chars. revert word.
  induction s as [|c s IH]; intros word; simpl.
  - destruct word; simpl; by rewrite ?app_nil_r.
  - destruct (isspace c) eqn:Hc; simpl.
    + destruct word as [|x word]; simpl; by rewrite IH.
    + rewrite IH. simpl. by rewrite <- app_assoc.
Qed.

Lemma split_from_nil_iff word s :
  split_from word s = [] <-> word = [] /\ forallb isspace s = true.
Proof.
  revert word. induction s as [|c s IH]; intros word; simpl.
  - destruct word; split; try done. by intros [? _].
  - destruct (isspace c) eqn:Hc; simpl.
    + destruct word as [|x word]; [apply IH|]. split; [done|by intros [? _]].
    + rewrite IH. split; [by intros [? _]|by intros [_ ?]].
Qed.

(** Whitespace at the end of the text adds no word. *)
Lemma split_from_trailing word s t :
  forallb isspace t = true -> split_from word (s ++ t) = split_from word s.
Proof.
  intros Ht. revert word. induction s as [|c s IH]; intros word; simpl.
  - induction t as [|x t IHt]; [done|]. simpl in *.
    apply andb_true_iff in Ht as [Hx Ht]. rewrite Hx.
    destruct word as [|y word]; [by apply IHt|].
    f_equal. specialize (IHt Ht). clear -Ht.
    induction t as [|z t IHz]; [done|]. simpl in *.
    apply andb_true_iff in Ht as [Hz Ht]. rewrite Hz. by apply IHz.
  - destruct (isspace c); [destruct word|]; by rewrite ?IH.
Qed.

Lemma split_lstrip s : str_split (lstrip s) = str_split s.
Proof.
  unfold str_split. induction s as [|c s IH]; simpl; [done|].
  destruct (isspace c) eqn:Hc; [done|]. simpl. by rewrite Hc.
Qed.

(** What [lstrip] removes is whitespace. *)
Lemma lstrip_decompose s :
  exists t, s = t ++ lstrip s /\ forallb isspace t = true.
Proof.
  induction s as [|c s (t & Hs & Ht)]; simpl; [by exists []|].
  destruct (isspace c) eqn:Hc.
  - exists (c :: t). simpl. rewrite Hc. split; [by f_equal|done].
  - by exists [].
Qed.

Lemma rstrip_decompose s :
  exists t, s = rstrip s ++ t /\ forallb isspace t = true.
Proof.
  destruct (lstrip_decompose (rev s)) as (t & Hs & Ht).
  exists (rev t). split; [|by rewrite forallb_rev].
  unfold rstrip. rewrite <- rev_app_distr, <- Hs. by rewrite rev_involutive.
Qed.

Lemma split_rstrip s : str_split (rstrip s) = str_split s.
Proof.
  destruct (rstrip_decompose s) as (t & Hs & Ht).
  rewrite Hs at 2. unfold str_split. by rewrite split_from_trailing.
Qed.

Lemma split_strip s : str_split (strip s) = str_split s.
Proof. unfold strip. by rewrite split_rstrip, split_lstrip. Qed.

(** [lstrip] leaves a text that does not start with whitespace alone. *)
Lemma lstrip_fixed s :
  match s with [] => True | c :: _ => isspace c = false end -> lstrip s = s.
Proof. destruct s as [|c s]; simpl; [done|]. by intros ->. Qed.

Lemma lstrip_starts s :
  match lstrip s with [] => True | c :: _ => isspace c = false end.
Proof.
  destruct (lstrip s) as [|c t] eqn:E; [done|]. by apply lstrip_head in E.
Qed.

Lemma strip_strip s : strip (strip s) = strip s.
Proof.
  assert (Hhead : match strip s with
                  | [] => True | c :: _ => isspace c = false end).
  { unfold strip, rstrip. pose proof (lstrip_starts s) as Hs.
    destruct (lstrip_decompose (rev (lstrip s))) as (t & Hv & _).
    apply (f_equal (@rev N)) in Hv.
    rewrite rev_involutive, rev_app_distr in Hv.
    destruct (rev (lstrip (rev (lstrip s)))) as [|x y]; [done|].
    rewrite Hv in Hs. exact Hs. }
  unfold strip at 1. rewrite (lstrip_fixed _ Hhead).
  unfold strip, rstrip. rewrite rev_involutive.
  by rewrite (lstrip_fixed _ (lstrip_starts _)).
Qed.

End Words.

Lemma str_split_nil_iff (s : pystr) :
  len (str_split s) = 0 <-> whitespace_only s.
Proof.
  unfold len, str_split. rewrite whitespace_only_iff.
  destruct (split_from [] s) eqn:E; simpl.
  - apply split_from_nil_iff in E as [_ E]. done.
  - split; [lia|]. intros Hs.
    assert (split_from [] s = []) as Hnil by (by apply split_from_nil_iff).
    congruence.
Qed.

(** X1.  The token estimate of [run_sync], [len(final_output.split())], counts
    words: every word is non-empty and free of whitespace, the words put
    together are the text without its whitespace, there is no word exactly
    when the text is blank, and stripping the text changes no word. *)
Theorem str_split_counts_words (s : pystr) :
  Forall (fun w => w <> [] /\ no_space w = true) (str_split s)
  /\ concat (str_split s) = non_space_chars s
  /\ (len (str_split s) = 0 <-> whitespace_only s)
  /\ str_split (strip s) = str_split s.
Proof.
  split_and!.
  - by apply split_from_words.
  - unfold str_split. by rewrite split_from_concat.
  - apply str_split_nil_iff.
  - apply split_strip.
Qed.

(** * [run_sync] and the endpoints *)

Section Sync.

Implicit Types (sessions : session_cache) (ctx : option pystr)
  (built : exn + session) (run : run_result) (message out : pystr).

Lemma ChatWaitRequest_accepts message ctx :
  accepted_length message ->
  ChatWaitRequest message ctx
  = Some {| request_message := message; request_context_id := ctx |}.
Proof.
  unfold accepted_length, ChatWaitRequest. intros [Hmin Hmax].
  apply Z.leb_le in Hmin, Hmax. by rewrite Hmin, Hmax.
Qed.

Lemma ChatWaitRequest_refuses message ctx :
  ~ accepted_length message -> ChatWaitRequest message ctx = None.
Proof.
  unfold accepted_length, ChatWaitRequest. intros Hlen.
  destruct (MIN_MESSAGE_LENGTH <=? len message) eqn:Hmin; [|done].
  destruct (len message <=? MAX_MESSAGE_LENGTH) eqn:Hmax; [|done].
  apply Z.leb_le in Hmin, Hmax. tauto.
Qed.

Lemma accepted_length_iff (message : pystr) :
  accepted_length message <-> message <> [] /\ len message <= 10000.
Proof.
  unfold accepted_length, MIN_MESSAGE_LENGTH, MAX_MESSAGE_LENGTH, len.
  destruct message as [|c message]; simpl; [split; [lia|by intros [? _]]|].
  split; [intros [_ ?]; by split|intros [_ ?]; lia].
Qed.

Lemma blank_iff message : blank message = true <-> whitespace_only message.
Proof.
  unfold blank, whitespace_only. destruct message as [|c m]; [done|].
  simpl truthy at 1. simpl negb at 1. rewrite orb_false_l.
  destruct (strip (c :: m)); simpl; split; done.
Qed.

Lemma not_blank_iff message :
  blank message = false <-> ~ whitespace_only message.
Proof. rewrite <- blank_iff. by destruct (blank message). Qed.

Lemma whitespace_only_strip message :
  whitespace_only (strip message) <-> whitespace_only message.
Proof. unfold whitespace_only. by rewrite strip_strip. Qed.

Lemma blank_strip m1 m2 : strip m1 = strip m2 -> blank m1 = blank m2.
Proof.
  intros Heq. apply eq_true_iff_eq.
  unfold whitespace_only in *. rewrite !blank_iff. unfold whitespace_only.
  by rewrite Heq.
Qed.

(** The [content] field accepts exactly the texts of at most 10000
    characters that are not blank, and stores them stripped. *)
Lemma content_field_inr v c :
  content_field v = inr c <->
  c = strip v /\ ~ whitespace_only v /\ len v <= MAX_CONTENT_LENGTH.
Proof.
  unfold content_field, validate_content. fold (blank v).
  destruct (Z.ltb_spec (len v) 1) as [Hshort|Hlong].
  - split; [done|]. intros (_ & Hv & _). exfalso. apply Hv.
    unfold len in Hshort. destruct v; [done|simpl in Hshort; lia].
  - destruct (Z.ltb_spec MAX_CONTENT_LENGTH (len v)) as [Hmax|Hmax].
    + split; [done|]. intros (_ & _ & ?). lia.
    + destruct (blank v) eqn:Hb.
      * apply blank_iff in Hb. split; [done|]. by intros (_ & ? & _).
      * apply not_blank_iff in Hb. split.
        -- intros [= <-]. done.
        -- by intros (-> & _ & _).
Qed.

Lemma split_not_blank out :
  ~ whitespace_only out -> 1 <= len (str_split out).
Proof.
  intros Hout. pose proof (str_split_nil_iff out) as Hnil.
  unfold len in *. destruct (str_split out); [|simpl; lia].
  exfalso. by apply Hout, Hnil.
Qed.

Lemma ChatMessage_inr out m :
  ChatMessage out (len (str_split out)) = inr m <->
  m = {| content := strip out; token_count := len (str_split out) |}
  /\ ~ whitespace_only out /\ len out <= MAX_CONTENT_LENGTH.
Proof.
  unfold ChatMessage, positive_field.
  destruct (content_field out) as [e|c] eqn:Hc.
  - split.
    + by destruct (0 <? len (str_split out)).
    + intros (_ & Hout & Hlen).
      assert (content_field out = inr (strip out)) as Hok
        by (by apply content_field_inr).
      congruence.
  - apply content_field_inr in Hc as (-> & Hout & Hlen).
    pose proof (split_not_blank out Hout) as Hwords.
    replace (0 <? len (str_split out)) with true
      by (symmetry; apply Z.ltb_lt; lia).
    split; [by intros [= <-]|by intros (-> & _ & _)].
Qed.

Lemma get_or_create_session_available sessions ctx built :
  (exists s, (get_or_create_session sessions ctx built).1 = inr s)
  <-> session_available sessions ctx built.
Proof.
  unfold get_or_create_session, session_available, create_session.
  destruct ctx as [sid|]; [|split; [done|by eexists]].
  destruct (sessions !! sid), built; simpl; split; try done;
    try (by eexists); by intros [? ?].
Qed.

(** X2.  [run_sync] returns exactly when the session can be had and the runner
    returns a text of at most 10000 characters that is not blank; in every
    other case it raises. *)
Theorem run_sync_returns_iff sessions ctx built run t0 t1 :
  (exists r, (run_sync sessions ctx built run t0 t1).1 = inr r)
  <-> session_available sessions ctx built
      /\ exists out, run = RunReturns (Some out)
           /\ ~ whitespace_only out /\ len out <= MAX_CONTENT_LENGTH.
Proof.
  rewrite <- get_or_create_session_available. unfold run_sync.
  destruct (get_or_create_session sessions ctx built) as [[e|s] sessions'];
    simpl.
  - split; [by intros [? ?]|by intros [[? ?] _]].
  - destruct run as [[out|]|e]; simpl.
    + destruct (ChatMessage out (len (str_split out))) as [errs|m] eqn:Hm;
        simpl.
      * split; [by intros [? ?]|]. intros (_ & out' & [= <-] & Hout & Hlen).
        assert (ChatMessage out (len (str_split out))
                = inr {| content := strip out;
                         token_count := len (str_split out) |}) as Hok
          by (by apply ChatMessage_inr).
        congruence.
      * apply ChatMessage_inr in Hm as (_ & Hout & Hlen).
        split; [|by eexists]. intros _. split; [by eexists|].
        by exists out.
    + split; [by intros [? ?]|by intros (_ & ? & ? & _)].
    + split; [by intros [? ?]|by intros (_ & ? & ? & _)].
Qed.

Lemma run_sync_inr sessions ctx built run t0 t1 r sessions'
    (Hrun : run_sync sessions ctx built run t0 t1 = (inr r, sessions')) :
  run = RunReturns (Some (sync_agent_output r))
  /\ sync_message r = strip (sync_agent_output r)
  /\ sync_message r <> []
  /\ strip (sync_message r) = sync_message r
  /\ sync_token_count r = len (str_split (sync_agent_output r))
  /\ sync_token_count r = len (str_split (sync_message r))
  /\ 1 <= sync_token_count r
  /\ sync_context_id r = or_default ctx
  /\ sessions' = (get_or_create_session sessions ctx built).2.
Proof.
  unfold run_sync in Hrun.
  destruct (get_or_create_session sessions ctx built) as [[e|s] sessions''];
    [done|].
  destruct run as [[out|]|e]; [|done..].
  destruct (ChatMessage out (len (str_split out))) as [errs|m] eqn:Hm; [done|].
  apply ChatMessage_inr in Hm as (-> & Hout & Hlen).
  injection Hrun as <- <-. simpl. split_and!; try done.
  - apply strip_strip.
  - by rewrite split_strip.
  - by apply split_not_blank.
Qed.

(** X3.  What [run_sync] returns: the runner's output stripped, which is not
    empty and has no whitespace at either end; the number of words of the
    output, at least 1; the label [context_id or "default"]; the output as
    it was; and the cache as [get_or_create_session] left it. *)
Theorem run_sync_result sessions ctx built run t0 t1 r sessions'
    (Hrun : run_sync sessions ctx built run t0 t1 = (inr r, sessions')) :
  run = RunReturns (Some (sync_agent_output r))
  /\ sync_message r = strip (sync_agent_output r)
  /\ sync_message r <> []
  /\ strip (sync_message r) = sync_message r
  /\ sync_token_count r = len (str_split (sync_agent_output r))
  /\ sync_token_count r = len (str_split (sync_message r))
  /\ 1 <= sync_token_count r
  /\ sync_context_id r = or_default ctx
  /\ sessions' = (get_or_create_session sessions ctx built).2.
Proof.
  unfold run_sync in Hrun.
  destruct (get_or_create_session sessions ctx built) as [[e|s] sessions''];
    [done|].
  destruct run as [[out|]|e]; [|done..].
  destruct (ChatMessage out (len (str_split out))) as [errs|m] eqn:Hm; [done|].
  apply ChatMessage_inr in Hm as (-> & Hout & Hlen).
  injection Hrun as <- <-. simpl. split_and!; try done.
  - apply strip_strip.
  - by rewrite split_strip.
  - by apply split_not_blank.
Qed.

Lemma get_or_create_session_keeps sessions ctx built sid s :
  sessions !! sid = Some s ->
  (get_or_create_session sessions ctx built).2 !! sid = Some s.
Proof.
  unfold get_or_create_session, create_session.
  intros Hs. destruct ctx as [sid'|]; [|done].
  destruct (sessions !! sid') eqn:Hs'; [done|].
  destruct built; [done|]. simpl.
  rewrite lookup_insert_ne; [done|]. congruence.
Qed.

Lemma get_or_create_session_other sessions ctx built sid :
  ctx <> Some sid ->
  (get_or_create_session sessions ctx built).2 !! sid = sessions !! sid.
Proof.
  unfold get_or_create_session, create_session.
  intros Hne. destruct ctx as [sid'|]; [|done].
  destruct (sessions !! sid'); [done|]. destruct built; [done|]. simpl.
  rewrite lookup_insert_ne; [done|]. congruence.
Qed.

(** X4.  The session cache.  Without an identifier nothing is read or written.
    A raising constructor leaves the cache as it was.  Once a call for an
    identifier has returned a session, every later call for it returns that
    same object without calling the constructor, and no call replaces or
    removes the session cached for any identifier. *)
Theorem get_or_create_session_caches sessions ctx built :
  get_or_create_session sessions None built = (inr None, sessions)
  /\ (forall e sessions',
        get_or_create_session sessions ctx built = (inl e, sessions') ->
        sessions' = sessions /\ built = inl e)
  /\ (forall s sessions' built',
        get_or_create_session sessions ctx built = (inr (Some s), sessions') ->
        get_or_create_session sessions' ctx built' = (inr (Some s), sessions'))
  /\ (forall sid s,
        sessions !! sid = Some s ->
        (get_or_create_session sessions ctx built).2 !! sid = Some s)
  /\ (forall sid,
        ctx <> Some sid ->
        (get_or_create_session sessions ctx built).2 !! sid = sessions !! sid).
Proof.
  split_and!; try (unfold get_or_create_session, create_session).
  - done.
  - intros e sessions'. destruct ctx as [sid|]; [|done].
    destruct (sessions !! sid); [done|]. destruct built; [|done].
    by intros [= <- <-].
  - intros s sessions' built'. destruct ctx as [sid|]; [|done].
    destruct (sessions !! sid) as [s0|] eqn:Hs.
    + intros [= <- <-]. by rewrite Hs.
    + destruct built as [e|s1]; [done|]. intros [= <- <-].
      by rewrite lookup_insert_eq.
  - intros sid s Hs. by apply get_or_create_session_keeps.
  - intros sid Hne. by apply get_or_create_session_other.
Qed.

(** X5.  [/chat/wait] answers 422 exactly when the message is empty or longer
    than 10000 characters, and 400 exactly when a message of accepted length
    is all whitespace; in both cases neither the session cache nor the
    runner is used. *)
Theorem chat_wait_rejects_blank runner built (clock : wait_clock) sessions
    message ctx :
  (wait_status (chat_wait runner built clock sessions message ctx).1 = 422
   <-> ~ accepted_length message)
  /\ (wait_status (chat_wait runner built clock sessions message ctx).1 = 400
      <-> accepted_length message /\ whitespace_only message)
  /\ (~ accepted_length message ->
      forall runner' built',
        chat_wait runner' built' clock sessions message ctx
        = (WaitRequestValidationError, sessions))
  /\ (accepted_length message -> whitespace_only message ->
      forall runner' built',
        chat_wait runner' built' clock sessions message ctx
        = (WaitHTTPException 400 EMPTY_MESSAGE EMPTY_MESSAGE_TEXT, sessions))
  /\ (accepted_length message <-> message <> [] /\ len message <= 10000).
Proof.
  destruct (decide (accepted_length message)) as [Hlen|Hlen].
  - unfold chat_wait. rewrite (ChatWaitRequest_accepts _ _ Hlen).
    unfold chat_wait_endpoint. simpl. rewrite <- blank_iff. split_and!.
    + destruct (blank message); [done|].
      destruct (run_sync _ _ _ _ _ _) as [[f|r] sessions']; simpl.
      * split; [done|tauto].
      * destruct (ChatWaitResponse _ _ _ _); simpl; (split; [done|tauto]).
    + destruct (blank message); [by split|]. split; [|by intros [_ ?]].
      destruct (run_sync _ _ _ _ _ _) as [[f|r] sessions']; [done|].
      by destruct (ChatWaitResponse _ _ _ _).
    + tauto.
    + by intros _ ->.
    + apply accepted_length_iff.
  - unfold chat_wait. rewrite (ChatWaitRequest_refuses _ _ Hlen). simpl.
    split_and!; try tauto.
    + split; [done|]. by intros [? _].
    + apply accepted_length_iff.
Qed.

(** X6.  [/chat/wait] sees a message of accepted length only through
    [strip()]: two such messages that differ in leading or trailing
    whitespace get the same answer. *)
Theorem chat_wait_reads_stripped_message runner built (clock : wait_clock)
    sessions ctx m1 m2 (Hm1 : accepted_length m1) (Hm2 : accepted_length m2)
    (Hstrip : strip m1 = strip m2) :
  chat_wait runner built clock sessions m1 ctx
  = chat_wait runner built clock sessions m2 ctx.
Proof.
  unfold chat_wait.
  rewrite (ChatWaitRequest_accepts _ _ Hm1), (ChatWaitRequest_accepts _ _ Hm2).
  unfold chat_wait_endpoint. simpl.
  by rewrite (blank_strip m1 m2 Hstrip), Hstrip.
Qed.

(** X7.  The answers of [/chat/wait].  A message that is empty or longer than
    10000 characters gets 422.  A response carries the runner's output
    stripped and not empty, its number of words, at least 1, a processing
    time that is not negative, and the label [context_id or "default"].
    Every failure of the endpoint is one of two fixed details: the one of
    the blank message, or the one of status 500, whose text is the same for
    every exception. *)
Theorem chat_wait_outcomes runner built (clock : wait_clock) sessions
    message ctx :
  match (chat_wait runner built clock sessions message ctx).1 with
  | WaitRequestValidationError => ~ accepted_length message
  | WaitOk r =>
      accepted_length message
      /\ exists out,
        runner (strip message) = RunReturns (Some out)
        /\ response_message r = strip out
        /\ response_message r <> []
        /\ response_token_count r = len (str_split out)
        /\ 1 <= response_token_count r
        /\ float_ge_int (response_processing_time_ms r) 0 = true
        /\ response_context_id r = or_default ctx
  | WaitHTTPException status_code error_code text =>
      accepted_length message
      /\ ((status_code = 400 /\ error_code = EMPTY_MESSAGE
           /\ text = EMPTY_MESSAGE_TEXT /\ whitespace_only message)
          \/ (status_code = 500 /\ error_code = CHAT_WAIT_ERROR
              /\ text = CHAT_WAIT_ERROR_TEXT /\ ~ whitespace_only message))
  end.
Proof.
  destruct (decide (accepted_length message)) as [Hlen|Hlen];
    unfold chat_wait;
    [rewrite (ChatWaitRequest_accepts _ _ Hlen)
    |by rewrite (ChatWaitRequest_refuses _ _ Hlen)].
  unfold chat_wait_endpoint. simpl.
  destruct (blank message) eqn:Hblank.
  { simpl. split; [done|]. left. split_and!; try done. by apply blank_iff. }
  assert (Hnb : ~ whitespace_only message).
  { rewrite <- blank_iff. by rewrite Hblank. }
  destruct (run_sync sessions ctx built (runner (strip message))
              (loop_start clock) (loop_end clock))
    as [[f|r] sessions'] eqn:Hrun; simpl; [by split; [|right]|].
  apply run_sync_inr in Hrun
    as (Hout & Hmsg & Hne & _ & Htok & _ & Hpos & Hctx & _).
  unfold ChatWaitResponse.
  destruct (0 <? sync_token_count r); simpl; [|by split; [|right]].
  destruct (float_ge_int _ _) eqn:Hms; simpl; [|by split; [|right]].
  split; [done|]. exists (sync_agent_output r). by split_and!.
Qed.

(** X8.  The cache after a request to [/chat/wait]: untouched when the request
    is refused with 422 or the message is blank, and otherwise what
    [get_or_create_session] leaves, whatever the runner does afterwards; no
    cached session is replaced or removed. *)
Theorem chat_wait_session_cache runner built (clock : wait_clock) sessions
    message ctx :
  (chat_wait runner built clock sessions message ctx).2
  = match ChatWaitRequest message ctx with
    | None => sessions
    | Some _ =>
        if blank message then sessions
        else (get_or_create_session sessions ctx built).2
    end
  /\ (ChatWaitRequest message ctx = None <-> ~ accepted_length message)
  /\ forall sid s,
       sessions !! sid = Some s ->
       (chat_wait runner built clock sessions message ctx).2 !! sid = Some s.
Proof.
  assert (Hcache : (chat_wait runner built clock sessions message ctx).2
    = match ChatWaitRequest message ctx with
      | None => sessions
      | Some _ =>
          if blank message then sessions
          else (get_or_create_session sessions ctx built).2
      end).
  { destruct (decide (accepted_length message)) as [Hlen|Hlen];
      unfold chat_wait;
      [rewrite (ChatWaitRequest_accepts _ _ Hlen)
      |by rewrite (ChatWaitRequest_refuses _ _ Hlen)].
    unfold chat_wait_endpoint, run_sync. simpl.
    destruct (blank message); [done|].
    destruct (get_or_create_session sessions ctx built) as [[e|s] sessions'];
      [done|].
    destruct (runner (strip message)) as [[out|]|e]; [|done..].
    destruct (ChatMessage _ _); [done|]. simpl.
    by destruct (ChatWaitResponse _ _ _ _). }
  split_and!; [done| |].
  - destruct (decide (accepted_length message)) as [Hlen|Hlen].
    + rewrite (ChatWaitRequest_accepts _ _ Hlen). by split.
    + by rewrite (ChatWaitRequest_refuses _ _ Hlen).
  - intros sid s Hs. rewrite Hcache.
    destruct (ChatWaitRequest message ctx); [|done].
    destruct (blank message); [done|].
    by apply get_or_create_session_keeps.
Qed.

(** X9.  The label that [run_sync] returns is not the key of the session it
    used when the request had no identifier or the empty one: the label is
    "default", and a request that sends the label back reads and writes the
    cache under "default", building a new session if none is cached there. *)
Theorem run_sync_label_is_not_session_key sessions ctx built run t0 t1 r
    sessions'
    (Hctx : ctx = None \/ ctx = Some [])
    (Hrun : run_sync sessions ctx built run t0 t1 = (inr r, sessions')) :
  sync_context_id r = lit "default"
  /\ Some (sync_context_id r) <> ctx
  /\ sessions' !! lit "default" = sessions !! lit "default"
  /\ forall s,
       sessions' !! lit "default" = None ->
       get_or_create_session sessions' (Some (sync_context_id r)) (inr s)
       = (inr (Some s), <[lit "default" := s]> sessions').
Proof.
  apply run_sync_inr in Hrun as (_ & _ & _ & _ & _ & _ & _ & Hlabel & Hsess).
  assert (Hdefault : sync_context_id r = lit "default")
    by (rewrite Hlabel; by destruct Hctx as [-> | ->]).
  rewrite Hdefault. split_and!.
  - done.
  - by destruct Hctx as [-> | ->].
  - rewrite Hsess. apply get_or_create_session_other.
    by destruct Hctx as [-> | ->].
  - intros s Hnone. unfold get_or_create_session, create_session.
    by rewrite Hnone.
Qed.

End Sync.

(** * More on the generator and the registry *)

Section Streams.

Context `{Runtime}.

Implicit Types (g : generator) (reg : registry) (cid : pystr)
  (ctx : option pystr) (rest : list agent_event) (pt : yield_point).

Lemma pull_event_other cid ctx rest reg cid' :
  cid' <> cid -> (pull_event cid ctx rest reg).2 !! cid' = reg !! cid'.
Proof.
  intros Hne.
  destruct (pull_event_cases cid ctx rest reg)
    as [[_ ->]|(frame & pt & rest' & -> & _)]; simpl; [|done].
  rewrite finally_cleanup_delete. by apply lookup_delete_ne.
Qed.

Lemma anext_other cid ctx pt rest reg cid' :
  cid' <> cid ->
  (anext (Suspended cid ctx pt rest) reg).2 !! cid' = reg !! cid'.
Proof.
  intros Hne. simpl. unfold update_connection.
  destruct pt; destruct (reg !! cid) as [c|] eqn:Hc; simpl;
    rewrite ?pull_event_other, ?finally_cleanup_delete,
            ?lookup_delete_ne, ?lookup_insert_ne by done; done.
Qed.

(** X10.  A stream reads and writes the registry under its own identifier only:
    starting it, resuming it and closing it leave the entry of every other
    connection as it was. *)
Theorem stream_touches_only_its_entry run ctx i t_id t_created pt rest reg
    cid cid' (Hne : cid' <> cid) :
  (anext (Suspended cid ctx pt rest) reg).2 !! cid' = reg !! cid'
  /\ (aclose (Suspended cid ctx pt rest) reg).2 !! cid' = reg !! cid'
  /\ (cid = make_connection_id ctx t_id ->
      (create_stream run ctx i t_id t_created reg).2 !! cid' = reg !! cid').
Proof.
  split_and!.
  - by apply anext_other.
  - simpl. rewrite finally_cleanup_delete. by apply lookup_delete_ne.
  - intros ->. unfold create_stream. rewrite pull_event_other by done.
    by apply lookup_insert_ne.
Qed.

Lemma pull_event_state cid ctx reg0 rest c :
  tokens_then_terminal rest -> status c = Active ->
  let r := pull_event cid ctx rest (<[cid := c]> reg0) in
  stream_state cid ctx reg0 r.1.2 r.2.
Proof.
  intros (tokens & t & -> & Htok & Ht) Hc. right.
  destruct tokens as [|[token j name| |] tokens]; simpl in Htok; try done.
  - destruct t as [|name [out|]|name code msg]; try done; simpl;
      do 3 eexists; split_and!; done.
  - simpl. destruct (0 <=? j); simpl; do 3 eexists; split_and!; try done.
    by exists tokens, t.
Qed.

Lemma anext_state cid ctx reg0 g reg :
  stream_state cid ctx reg0 g reg ->
  stream_state cid ctx reg0 (anext g reg).1.2 (anext g reg).2.
Proof.
  intros [[-> ->]|(pt & rest & c & -> & -> & Hc & Hpending)].
  - by left.
  - simpl. unfold update_connection. rewrite lookup_insert_eq.
    destruct pt; simpl in Hpending; subst; simpl;
      rewrite ?insert_insert_eq, ?finally_cleanup_delete, ?delete_insert_eq.
    + by apply (pull_event_state cid ctx reg0 rest
                  (set_last_token_index token_index c)).
    + by left.
    + by left.
    + by left.
Qed.

Lemma aclose_state cid ctx reg0 g reg :
  stream_state cid ctx reg0 g reg ->
  stream_state cid ctx reg0 (aclose g reg).1 (aclose g reg).2.
Proof.
  intros [[-> ->]|(pt & rest & c & -> & -> & _)]; left; simpl; [done|].
  by rewrite finally_cleanup_delete, delete_insert_eq.
Qed.

Lemma run_streaming_tokens_then_terminal run ctx i :
  tokens_then_terminal (run_streaming run ctx i).
Proof.
  destruct run as [e|evs fin]; simpl.
  - by exists [], (streaming_error ctx e).
  - rewrite stream_events_loop_shape. do 2 eexists. split_and!; [done| |].
    + apply number_tokens_all_tokens.
    + by destruct fin.
Qed.

Lemma create_stream_state run ctx i t_id t_created reg0 :
  let start := create_stream run ctx i t_id t_created reg0 in
  stream_state (make_connection_id ctx t_id) ctx reg0 start.1.2 start.2.
Proof.
  unfold create_stream.
  apply (pull_event_state _ ctx reg0 _ (new_connection ctx i t_created));
    [apply run_streaming_tokens_then_terminal|done].
Qed.

Lemma run_schedule_state cid ctx reg0 steps g reg :
  undisturbed steps ->
  stream_state cid ctx reg0 g reg ->
  stream_state cid ctx reg0 (run_schedule steps g reg).1
    (run_schedule steps g reg).2.
Proof.
  intros Hsteps. revert g reg.
  induction Hsteps as [|step steps [-> | ->] _ IH]; intros g reg Hstate;
    simpl; [done| |].
  - pose proof (anext_state cid ctx reg0 g reg Hstate) as Hnext.
    destruct (anext g reg) as [[r g'] reg']. by apply IH.
  - pose proof (aclose_state cid ctx reg0 g reg Hstate) as Hclose.
    destruct (aclose g reg) as [g' reg']. by apply IH.
Qed.

Lemma anext_n_schedule n g reg :
  anext_n n g reg = run_schedule (replicate n Anext) g reg.
Proof.
  revert g reg. induction n as [|n IH]; intros g reg; simpl; [done|].
  destruct (anext g reg) as [[r g'] reg']. apply IH.
Qed.

Lemma undisturbed_replicate n : undisturbed (replicate n Anext).
Proof. apply Forall_replicate. by left. Qed.

(** X11.  A stream that no other task disturbs leaves the registry as it found
    it: once it is finished, by exhaustion or by being closed at any yield,
    the registry is the one it was started on without the stream's
    identifier, and exactly that registry if the identifier was free; the
    count of [health_check] is then back to its value. *)
Theorem stream_restores_registry run ctx i t_id t_created reg0 steps
    (Hsteps : undisturbed steps) :
  let cid := make_connection_id ctx t_id in
  let start := create_stream run ctx i t_id t_created reg0 in
  let now := run_schedule steps start.1.2 start.2 in
  is_finished now.1 = true ->
  now.2 = delete cid reg0
  /\ (reg0 !! cid = None ->
      now.2 = reg0
      /\ active_connections_count now.2 = active_connections_count reg0
      /\ active_connections_count start.2
         = active_connections_count reg0 + 1).
Proof.
  intros cid start now Hfin.
  pose proof (run_schedule_state cid ctx reg0 steps start.1.2 start.2 Hsteps
                (create_stream_state run ctx i t_id t_created reg0)) as Hnow.
  fold now in Hnow.
  destruct Hnow as [[_ Hreg]|(pt & rest & c & Hg & _)];
    [|rewrite Hg in Hfin; done].
  split; [done|]. intros Hfree. rewrite Hreg, delete_id by done.
  split_and!; [done..|].
  destruct (create_stream_cases run ctx i t_id t_created reg0)
    as (frame & pt & rest & Hstart & _).
  unfold start. rewrite Hstart. simpl. unfold active_connections_count.
  fold cid. rewrite map_size_insert_None by done. lia.
Qed.

(** X12.  While a stream that no other task disturbs is suspended, its entry is
    in the registry with status "active": the statuses "completed" and
    "error" are written and the entry is deleted within one resumption, so
    no other task ever reads them. *)
Theorem suspended_stream_is_active run ctx i t_id t_created reg0 steps
    (Hsteps : undisturbed steps) :
  let cid := make_connection_id ctx t_id in
  let start := create_stream run ctx i t_id t_created reg0 in
  let now := run_schedule steps start.1.2 start.2 in
  is_finished now.1 = false ->
  generator_id now.1 = Some cid
  /\ status <$> now.2 !! cid = Some Active.
Proof.
  intros cid start now Hnot.
  pose proof (run_schedule_state cid ctx reg0 steps start.1.2 start.2 Hsteps
                (create_stream_state run ctx i t_id t_created reg0)) as Hnow.
  fold now in Hnow.
  destruct Hnow as [[Hg _]|(pt & rest & c & Hg & Hreg & Hc & _)];
    [rewrite Hg in Hnot; done|].
  rewrite Hg, Hreg. split; [done|]. rewrite lookup_insert_eq. simpl.
  by rewrite Hc.
Qed.

(** X13.  [/chat/streaming] passes [last_token_index] on unchecked.  With a
    negative index and a run that has a delta to send, the first Token is
    refused by its model: the stream consists of the handler's Error frame
    alone, no Token frame is sent, and the next resumption ends the stream
    and deletes its entry. *)
Theorem negative_index_stream run ctx i t_id t_created reg0
    (Hi : i < 0) (Hrun : tokens_of_run run <> []) :
  let cid := make_connection_id ctx t_id in
  let failed := Suspended cid ctx AtHandler [] in
  let reg1 := <[cid := new_connection ctx i t_created]> reg0 in
  create_stream run ctx i t_id t_created reg0
  = (Yielded (_format_sse_event (model_dump
       (StreamErrorEvent ctx STREAMING_SERVICE_ERROR
          (failure_str (InvalidTokenIndex i))))), failed, reg1)
  /\ anext failed reg1 = (StopAsyncIteration, Finished, delete cid reg0)
  /\ forall n,
       frames n (create_stream run ctx i t_id t_created reg0)
       = [_format_sse_event (model_dump
            (StreamErrorEvent ctx STREAMING_SERVICE_ERROR
               (failure_str (InvalidTokenIndex i))))].
Proof.
  intros cid failed reg1.
  assert (Hstart : create_stream run ctx i t_id t_created reg0
    = (Yielded (_format_sse_event (model_dump
         (StreamErrorEvent ctx STREAMING_SERVICE_ERROR
            (failure_str (InvalidTokenIndex i))))), failed, reg1)).
  { unfold create_stream. fold cid.
    destruct run as [e|evs fin]; [done|]. simpl in Hrun.
    simpl run_streaming. rewrite stream_events_loop_shape.
    destruct (kept_deltas evs) as [|d ds]; [done|]. simpl.
    replace (0 <=? i) with false by (symmetry; apply Z.leb_gt; lia).
    done. }
  assert (Hnext : anext failed reg1
                  = (StopAsyncIteration, Finished, delete cid reg0)).
  { simpl. unfold update_connection, reg1. rewrite lookup_insert_eq.
    by rewrite finally_cleanup_delete, insert_insert_eq, delete_insert_eq. }
  split_and!; [done..|].
  intros n. rewrite Hstart. destruct n; cbn [frames]; [done|].
  rewrite Hnext. by destruct n.
Qed.

(** X14.  The sweep and a live stream.  When the sweep finds the entry of a
    suspended stream active and older than the timeout, it deletes it; the
    stream's next resumption then fails on the missing key and sends the
    Error frame of the handler instead of going on, and the resumption
    after that lets the KeyError out of the generator. *)
Theorem swept_stream_breaks cid ctx pt rest reg c now timeout
    (Hpt : pt <> AtHandler)
    (Hentry : reg !! cid = Some c)
    (Hold : abandoned now timeout c = true) :
  let reg' := (cleanup_abandoned_connections reg now timeout).1 in
  let failed := Suspended cid ctx AtHandler [] in
  reg' !! cid = None
  /\ anext (Suspended cid ctx pt rest) reg'
     = (Yielded (_format_sse_event (model_dump
          (StreamErrorEvent ctx STREAMING_SERVICE_ERROR
             (failure_str (KeyError cid))))), failed, reg')
  /\ anext failed reg' = (Raised (KeyError cid), Finished, reg').
Proof.
  intros reg' failed.
  assert (Hgone : reg' !! cid = None).
  { unfold reg'. rewrite cleanup_lookup, Hentry. simpl. by rewrite Hold. }
  split_and!; [done| |].
  - simpl. unfold update_connection. rewrite Hgone. by destruct pt.
  - simpl. unfold update_connection, finally_cleanup. by rewrite Hgone.
Qed.

End Streams.

(** * Looking a connection up by its context *)

Section Status.

Implicit Types (items : list (pystr * connection)) (reg : registry)
  (ctx : pystr).

Lemma get_connection_status_None items ctx :
  get_connection_status items ctx = None <->
  forall conn_id c, (conn_id, c) ∈ items -> context_id c <> Some ctx.
Proof.
  induction items as [|[k c] items IH]; simpl.
  - split; [|done]. intros _ conn_id c' Hin. by apply elem_of_nil in Hin.
  - case_decide as Hc.
    + split; [done|]. intros Hall. exfalso.
      apply (Hall k c); [|done]. apply list_elem_of_here.
    + rewrite IH. split.
      * intros Hall conn_id c' [[= -> ->]|Hin]%elem_of_cons; [done|].
        by apply (Hall conn_id).
      * intros Hall conn_id c' Hin. apply (Hall conn_id).
        by apply list_elem_of_further.
Qed.

Lemma get_connection_status_Some items ctx r :
  get_connection_status items ctx = Some r ->
  exists conn_id c,
    (conn_id, c) ∈ items /\ context_id c = Some ctx
    /\ r = status_of conn_id c.
Proof.
  induction items as [|[k c] items IH]; simpl; [done|].
  case_decide as Hc.
  - intros [= <-]. exists k, c. split_and!; [apply list_elem_of_here|done..].
  - intros Hr. destruct (IH Hr) as (conn_id & c' & Hin & Hctx & ->).
    exists conn_id, c'. split_and!; [by apply list_elem_of_further|done..].
Qed.

Lemma items_of_elem reg items conn_id c :
  items_of reg items -> ((conn_id, c) ∈ items <-> reg !! conn_id = Some c).
Proof.
  unfold items_of. intros Hperm. rewrite Hperm. apply elem_of_map_to_list.
Qed.

(** X15.  [get_connection_status], whatever the order in which the dictionary
    iterates: it returns [None] exactly when no connection of the registry
    was registered with that context, and what it returns otherwise is a
    copy of the entry of a connection registered with it, under the key of
    that entry. *)
Theorem get_connection_status_finds_context reg items ctx
    (Hitems : items_of reg items) :
  (get_connection_status items ctx = None <->
   forall conn_id c, reg !! conn_id = Some c -> context_id c <> Some ctx)
  /\ forall r,
       get_connection_status items ctx = Some r ->
       exists c,
         reg !! status_connection_id r = Some c
         /\ context_id c = Some ctx
         /\ r = status_of (status_connection_id r) c.
Proof.
  split.
  - rewrite get_connection_status_None. split.
    + intros Hall conn_id c Hc. apply (Hall conn_id).
      by apply (items_of_elem reg).
    + intros Hall conn_id c Hin. apply (Hall conn_id).
      by apply (items_of_elem reg items).
  - intros r Hr.
    destruct (get_connection_status_Some items ctx r Hr)
      as (conn_id & c & Hin & Hctx & ->).
    exists c. simpl. split_and!; [|done..].
    by apply (items_of_elem reg items).
Qed.

(** X16.  A started stream and [get_connection_status].  A stream started with a
    context is found under that context.  A stream started without one is
    registered with context [None] and adds nothing that any lookup can
    find, not even the lookup of "default", the name under which its
    identifier and its frames go. *)
Theorem started_stream_lookup `{Runtime} run (ctx : option pystr) i t_id
    t_created reg0 items
    (Hitems : items_of (create_stream run ctx i t_id t_created reg0).2 items) :
  (forall name, ctx = Some name ->
     is_Some (get_connection_status items name))
  /\ (ctx = None ->
      forall name,
        (forall conn_id c, reg0 !! conn_id = Some c ->
           context_id c <> Some name) ->
        get_connection_status items name = None).
Proof.
  destruct (create_stream_cases run ctx i t_id t_created reg0)
    as (frame & pt & rest & Hstart & _).
  rewrite Hstart in Hitems. simpl in Hitems. split.
  - intros name ->.
    destruct (get_connection_status items name) as [r|] eqn:Hr; [by eexists|].
    exfalso.
    pose proof (proj1 (get_connection_status_None items name) Hr) as Hall.
    apply (Hall (make_connection_id (Some name) t_id)
                 (new_connection (Some name) i t_created)); [|done].
    eapply items_of_elem; [exact Hitems|]. apply lookup_insert_eq.
  - intros -> name Hnone. apply get_connection_status_None.
    intros conn_id c Hin. eapply items_of_elem in Hin; [|exact Hitems].
    destruct (decide (conn_id = make_connection_id None t_id)) as [->|Hne].
    + rewrite lookup_insert_eq in Hin. by simplify_eq.
    + rewrite lookup_insert_ne in Hin by done. by apply (Hnone conn_id).
Qed.

End Status.

(** * Sweeping more than once *)

Section Sweeps.

Lemma cleanup_size_count (reg : registry) now timeout :
  Z.of_nat (size reg)
  = Z.of_nat (size (cleanup_abandoned_connections reg now timeout).1)
    + (cleanup_abandoned_connections reg now timeout).2.
Proof.
  rewrite cleanup_count. pose proof (cleanup_sizes now timeout reg). lia.
Qed.

(** X17.  Sweeping at one reading of the clock and again at another, with
    the same timeout, when every connection that passes the test of the
    sweep at the first reading passes it at the second: the registry left
    is the one that a single sweep at the second reading leaves, and the
    two counts add up to the count of that single sweep. *)
Theorem sweeps_compose (reg : registry) now1 now2 timeout
    (Hlater : forall cid c,
       reg !! cid = Some c ->
       abandoned now1 timeout c = true -> abandoned now2 timeout c = true) :
  let first := cleanup_abandoned_connections reg now1 timeout in
  let second := cleanup_abandoned_connections first.1 now2 timeout in
  let single := cleanup_abandoned_connections reg now2 timeout in
  second.1 = single.1 /\ single.2 = first.2 + second.2.
Proof.
  intros first second single.
  assert (Hreg : second.1 = single.1).
  { apply map_eq. intros cid. unfold second, single, first.
    rewrite !cleanup_lookup. destruct (reg !! cid) as [c|] eqn:Hc; [|done].
    simpl. destruct (abandoned now1 timeout c) eqn:H1; simpl; [|done].
    by rewrite (Hlater cid c Hc H1). }
  split; [done|].
  pose proof (cleanup_size_count reg now1 timeout) as Hfirst.
  pose proof (cleanup_size_count first.1 now2 timeout) as Hsecond.
  pose proof (cleanup_size_count reg now2 timeout) as Hsingle.
  fold first in Hfirst. fold second in Hsecond. fold single in Hsingle.
  rewrite Hreg in Hsecond. lia.
Qed.

End Sweeps.

(** * Reading the strings of a frame back *)

Section Decoding.

Implicit Types (s t : pystr) (c : N).

(** X18.  The escaping of [json.dumps] loses nothing: the text between the quotes
    reads back as the string, two strings are written alike only if they
    are equal, and two Token frames with the same index and context are
    equal only if their tokens are. *)
Theorem encoded_strings_read_back s :
  decode_basestring (concat (map escape_char s)) = s
  /\ (forall s', encode_basestring s = encode_basestring s' -> s = s')
  /\ (forall s' i name,
        _format_sse_event (model_dump (StreamTokenEvent s i name))
        = _format_sse_event (model_dump (StreamTokenEvent s' i name)) ->
        s = s').
Proof.
  assert (Hinj : forall s1 s2,
            encode_basestring s1 = encode_basestring s2 -> s1 = s2).
  { intros s1 s2 Heq. unfold encode_basestring in Heq.
    apply app_inv_head, app_inv_tail in Heq.
    rewrite <- (decode_escaped s1), <- (decode_escaped s2). by rewrite Heq. }
  split_and!.
  - apply decode_escaped.
  - intros s'. apply Hinj.
  - intros s' i name Heq. apply Hinj.
    unfold _format_sse_event, json_dumps in Heq.
    apply app_inv_head, app_inv_tail, app_inv_head, app_inv_tail in Heq.
    cbn [model_dump map join_items] in Heq.
    unfold dumps_item at 1 5 in Heq. cbn [fst snd dumps_value] in Heq.
    rewrite <- !app_assoc in Heq.
    apply app_inv_head, app_inv_head in Heq.
    by apply app_inv_tail in Heq.
Qed.

End Decoding.

(** * Control characters *)

Section Control.

Implicit Types (s t : pystr) (c : N).

Lemma no_control_app s t :
  no_control (s ++ t) = no_control s && no_control t.
Proof. apply forallb_app. Qed.

Lemma escape_char_no_control c : no_control (escape_char c) = true.
Proof.
  unfold escape_char.
  repeat match goal with
  | |- context [(c =? ?k)%N] => destruct (N.eqb_spec c k); [done|]
  end.
  destruct (N.ltb_spec c 32) as [Hlow|Hhigh].
  - rewrite no_control_app. simpl. unfold control_char.
    pose proof (hex_digit_printable (c / 16)).
    pose proof (hex_digit_printable (c mod 16)).
    replace (hex_digit (c / 16) <? 32)%N with false
      by (symmetry; apply N.ltb_ge; lia).
    replace (hex_digit (c mod 16) <? 32)%N with false
      by (symmetry; apply N.ltb_ge; lia).
    done.
  - simpl. unfold control_char.
    replace (c <? 32)%N with false by (symmetry; apply N.ltb_ge; lia). done.
Qed.

Lemma encode_basestring_no_control s : no_control (encode_basestring s) = true.
Proof.
  unfold encode_basestring. rewrite !no_control_app.
  assert (no_control (concat (map escape_char s)) = true) as ->; [|done].
  induction s as [|c s IH]; [done|]. simpl.
  by rewrite no_control_app, escape_char_no_control, IH.
Qed.

Lemma uint_str_no_control d :
  no_control (lit (NilEmpty.string_of_uint d)) = true.
Proof. induction d; simpl; done. Qed.

Lemma int_str_no_control z : no_control (int_str z) = true.
Proof.
  unfold int_str, NilZero.string_of_int.
  assert (Hu : forall d, no_control (lit (NilZero.string_of_uint d)) = true).
  { intros d. unfold NilZero.string_of_uint.
    destruct d; try apply uint_str_no_control. done. }
  destruct (Z.to_int z) as [d|d]; [apply Hu|].
  change (lit (String "-" (NilZero.string_of_uint d)))
    with (45%N :: lit (NilZero.string_of_uint d)).
  simpl. apply Hu.
Qed.

Lemma dumps_item_no_control kv : no_control (dumps_item kv) = true.
Proof.
  unfold dumps_item. rewrite !no_control_app, encode_basestring_no_control.
  destruct (snd kv); simpl dumps_value;
    rewrite ?encode_basestring_no_control, ?int_str_no_control; done.
Qed.

Lemma join_items_no_control items :
  Forall (fun item => no_control item = true) items ->
  no_control (join_items items) = true.
Proof.
  intros Hall. induction Hall as [|item items Hitem Hall IH]; [done|].
  destruct items as [|item' items]; [exact Hitem|].
  change (join_items (item :: item' :: items))
    with (item ++ lit ", " ++ join_items (item' :: items)).
  by rewrite !no_control_app, Hitem, IH.
Qed.

(** X19.  The JSON text of a frame holds no control character at all, whatever
    the strings of the dictionary contain: the only characters below 0x20
    in a frame are the two newlines that end it. *)
Theorem frame_control_characters (data : pydict) :
  no_control (json_dumps data) = true
  /\ _format_sse_event data
     = (lit "data: " ++ json_dumps data) ++ [NEWLINE; NEWLINE]
  /\ no_control (lit "data: " ++ json_dumps data) = true.
Proof.
  assert (Hjson : no_control (json_dumps data) = true).
  { unfold json_dumps. rewrite !no_control_app.
    rewrite join_items_no_control; [done|].
    apply Forall_forall. intros item Hin.
    apply list_elem_of_In, in_map_iff in Hin. destruct Hin as [kv [<- _]].
    apply dumps_item_no_control. }
  split_and!; [done| |].
  - unfold _format_sse_event. by rewrite <- app_assoc.
  - by rewrite no_control_app, Hjson.
Qed.

End Control.

(** * [/chat/streaming] end to end *)

Section Streaming.

Context `{Runtime}.

Lemma length_number_tokens name i ds :
  length (number_tokens name i ds) = length ds.
Proof. revert i. induction ds; intros i; simpl; auto. Qed.

Lemma frames_of_tokens name i ds tail :
  0 <= i ->
  frames_of (number_tokens name i ds ++ tail)
  = token_frames name i ds ++ frames_of tail.
Proof.
  revert i. induction ds as [|d ds IH]; intros i Hi; [done|]. simpl.
  replace (0 <=? i) with true by (symmetry; apply Z.leb_le; lia).
  rewrite IH by lia. done.
Qed.

(** X20.  [/chat/streaming] from the request to the body of the response.  A
    blank message is answered with status 400 and no stream exists.  For
    any other message the runner gets the message stripped, and when it
    completes with a string and the index is not negative, the body that an
    undisturbed consumer reads is one Token frame for each kept delta,
    numbered from [last_token_index], followed by the End frame. *)
Theorem chat_streaming_body (runner : pystr -> runner_run) message ctx i
    evs out t_id t_created reg0 :
  (whitespace_only message ->
   chat_streaming message ctx i
   = StreamingHTTPException 400 EMPTY_MESSAGE EMPTY_MESSAGE_TEXT
   /\ forall n,
        response_frames runner n t_id t_created reg0
          (chat_streaming message ctx i) = [])
  /\ (~ whitespace_only message -> 0 <= i ->
      runner (strip message) = Streamed evs (Completes (Some out)) ->
      response_frames runner (S (length (kept_deltas evs))) t_id t_created
        reg0 (chat_streaming message ctx i)
      = token_frames (or_default ctx) i (kept_deltas evs)
          ++ [_format_sse_event (model_dump
                (StreamEndEvent (or_default ctx) out))]).
Proof.
  unfold chat_streaming. split.
  - intros Hblank. apply blank_iff in Hblank. rewrite Hblank. done.
  - intros Hmsg Hi Hrun. apply not_blank_iff in Hmsg. rewrite Hmsg.
    unfold response_frames. rewrite Hrun.
    pose proof (undisturbed_stream_frames
                  (Streamed evs (Completes (Some out))) ctx i t_id t_created
                  reg0 Hi I) as [Hframes _].
    simpl run_streaming in Hframes.
    rewrite stream_events_loop_shape in Hframes.
    rewrite length_app, length_number_tokens in Hframes.
    simpl length in Hframes. rewrite Nat.add_1_r in Hframes.
    rewrite Hframes. by rewrite frames_of_tokens.
Qed.

End Streaming.

(** * Further concrete runs *)

Section MoreExamples.

#[local] Existing Instance example_runtime.

Lemma run_sync_result_witness :
  let r := {| sync_message := lit "Hi there";
              sync_context_id := lit "default";
              sync_token_count := 2;
              sync_processing_time_ms :=
                float_mul (float_sub (float_of_int 1) (float_of_int 0))
                          (float_of_int 1000);
              sync_agent_output := lit " Hi there " |} in
  run_sync ∅ None (inl store_failure)
    (RunReturns (Some (lit " Hi there "))) (float_of_int 0) (float_of_int 1)
  = (inr r, ∅)
  /\ sync_token_count r = len (str_split (sync_message r)).
Proof.
  intros r.
  assert (Hrun : run_sync ∅ None (inl store_failure)
                   (RunReturns (Some (lit " Hi there ")))
                   (float_of_int 0) (float_of_int 1) = (inr r, ∅))
    by reflexivity.
  split; [exact Hrun|].
  destruct (run_sync_result _ _ _ _ _ _ _ _ Hrun)
    as (_ & _ & _ & _ & _ & Hcount & _).
  exact Hcount.
Defined.

Lemma chat_wait_reads_stripped_message_witness :
  accepted_length (lit "  hi ") /\ accepted_length (lit "hi")
  /\ strip (lit "  hi ") = strip (lit "hi")
  /\ chat_wait echo_runner (inl store_failure) example_wait_clock ∅
       (lit "  hi ") None
     = chat_wait echo_runner (inl store_failure) example_wait_clock ∅
         (lit "hi") None.
Proof.
  assert (Hm1 : accepted_length (lit "  hi ")) by (vm_compute; split; discriminate).
  assert (Hm2 : accepted_length (lit "hi")) by (vm_compute; split; discriminate).
  assert (Hstrip : strip (lit "  hi ") = strip (lit "hi")) by reflexivity.
  split_and!; [exact Hm1|exact Hm2|exact Hstrip|].
  exact (chat_wait_reads_stripped_message echo_runner (inl store_failure)
           example_wait_clock ∅ None (lit "  hi ") (lit "hi") Hm1 Hm2 Hstrip).
Defined.

(** Requests to [/chat/wait] on an empty cache: the empty message and a
    letter followed by 10000 spaces are refused with 422 and no session is
    cached; three spaces get 400; the letter alone is answered and its
    session is cached. *)
Lemma chat_wait_statuses :
  let post message :=
    chat_wait echo_runner (inr example_session) example_wait_clock ∅
      message (Some (lit "s1")) in
  post [] = (WaitRequestValidationError, ∅)
  /\ post (lit "a" ++ repeat 32%N (Z.to_nat 10000)) = (WaitRequestValidationError, ∅)
  /\ post (lit "a" ++ repeat 32%N (Z.to_nat 9999))
     = post (lit "a")
  /\ post (lit "   ")
     = (WaitHTTPException 400 EMPTY_MESSAGE EMPTY_MESSAGE_TEXT, ∅)
  /\ wait_status (post (lit "a")).1 = 200
  /\ (post (lit "a")).2 = {[ lit "s1" := example_session ]}.
Proof. vm_compute. by split_and!. Qed.

Lemma run_sync_label_is_not_session_key_witness :
  let r := {| sync_message := lit "ok";
              sync_context_id := lit "default";
              sync_token_count := 1;
              sync_processing_time_ms :=
                float_mul (float_sub (float_of_int 1) (float_of_int 0))
                          (float_of_int 1000);
              sync_agent_output := lit "ok" |} in
  run_sync ∅ (Some []) (inr example_session) (RunReturns (Some (lit "ok")))
    (float_of_int 0) (float_of_int 1)
  = (inr r, {[ [] := example_session ]})
  /\ Some (sync_context_id r) <> Some [].
Proof.
  intros r.
  assert (Hrun : run_sync ∅ (Some []) (inr example_session)
                   (RunReturns (Some (lit "ok"))) (float_of_int 0) (float_of_int 1)
                 = (inr r, {[ [] := example_session ]}))
    by reflexivity.
  split; [exact Hrun|].
  destruct (run_sync_label_is_not_session_key _ _ _ _ _ _ _ _
              (or_intror eq_refl) Hrun) as (_ & Hne & _).
  exact Hne.
Defined.

Lemma stream_touches_only_its_entry_witness :
  lit "c1-0" <> make_connection_id None clock
  /\ (create_stream hi_run None 0 clock clock old_registry).2 !! lit "c1-0"
     = old_registry !! lit "c1-0".
Proof.
  assert (Hne : lit "c1-0" <> make_connection_id None clock)
    by (vm_compute; discriminate).
  split; [exact Hne|].
  destruct (stream_touches_only_its_entry hi_run None 0 clock clock AtEnd []
              old_registry (make_connection_id None clock) (lit "c1-0") Hne)
    as (_ & _ & Hstart).
  exact (Hstart eq_refl).
Defined.

Lemma stream_restores_registry_witness :
  let start := create_stream hi_run None 0 clock clock old_registry in
  let now := run_schedule [Anext; Aclose] start.1.2 start.2 in
  undisturbed [Anext; Aclose]
  /\ is_finished now.1 = true
  /\ old_registry !! make_connection_id None clock = None
  /\ now.2 = old_registry.
Proof.
  intros start now.
  assert (Hsteps : undisturbed [Anext; Aclose])
    by (repeat constructor; auto).
  assert (Hfin : is_finished now.1 = true) by (vm_compute; reflexivity).
  assert (Hfree : old_registry !! make_connection_id None clock = None)
    by (vm_compute; reflexivity).
  split_and!; [exact Hsteps|exact Hfin|exact Hfree|].
  destruct (stream_restores_registry hi_run None 0 clock clock old_registry
              [Anext; Aclose] Hsteps Hfin) as (_ & Hrestored).
  destruct (Hrestored Hfree) as (Hreg & _). exact Hreg.
Defined.

Lemma suspended_stream_is_active_witness :
  let start := create_stream hi_run None 0 clock clock ∅ in
  let now := run_schedule [Anext; Anext] start.1.2 start.2 in
  undisturbed [Anext; Anext]
  /\ is_finished now.1 = false
  /\ status <$> now.2 !! make_connection_id None clock = Some Active.
Proof.
  intros start now.
  assert (Hsteps : undisturbed [Anext; Anext])
    by (repeat constructor; auto).
  assert (Hnot : is_finished now.1 = false) by (vm_compute; reflexivity).
  split_and!; [exact Hsteps|exact Hnot|].
  destruct (suspended_stream_is_active hi_run None 0 clock clock ∅
              [Anext; Anext] Hsteps Hnot) as (_ & Hactive).
  exact Hactive.
Defined.

Lemma negative_index_stream_witness :
  -1 < 0
  /\ tokens_of_run hi_run <> []
  /\ frames 3 (create_stream hi_run None (-1) clock clock ∅)
     = [_format_sse_event (model_dump
          (StreamErrorEvent None STREAMING_SERVICE_ERROR
             (failure_str (InvalidTokenIndex (-1)))))].
Proof.
  assert (Hi : -1 < 0) by lia.
  assert (Hrun : tokens_of_run hi_run <> []) by (vm_compute; discriminate).
  split_and!; [exact Hi|exact Hrun|].
  destruct (negative_index_stream hi_run None (-1) clock clock ∅ Hi Hrun)
    as (_ & _ & Hframes).
  exact (Hframes 3%nat).
Defined.

Lemma swept_stream_breaks_witness :
  AtToken 0 <> AtHandler
  /\ old_registry !! lit "c1-0"
     = Some (Connection (Some (lit "c1")) 0 (float_of_int 0) Active)
  /\ abandoned (float_of_int 301) 300
       (Connection (Some (lit "c1")) 0 (float_of_int 0) Active) = true
  /\ (cleanup_abandoned_connections old_registry (float_of_int 301) 300).1
       !! lit "c1-0" = None.
Proof.
  assert (Hpt : AtToken 0 <> AtHandler) by discriminate.
  assert (Hentry : old_registry !! lit "c1-0"
            = Some (Connection (Some (lit "c1")) 0 (float_of_int 0) Active))
    by (vm_compute; reflexivity).
  assert (Hold : abandoned (float_of_int 301) 300
            (Connection (Some (lit "c1")) 0 (float_of_int 0) Active) = true)
    by reflexivity.
  split_and!; [exact Hpt|exact Hentry|exact Hold|].
  destruct (swept_stream_breaks (lit "c1-0") (Some (lit "c1")) (AtToken 0) []
              old_registry _ (float_of_int 301) 300 Hpt Hentry Hold)
    as (Hgone & _).
  exact Hgone.
Defined.

Lemma get_connection_status_finds_context_witness :
  items_of old_registry (map_to_list old_registry)
  /\ (get_connection_status (map_to_list old_registry) (lit "c2") = None <->
      forall conn_id c,
        old_registry !! conn_id = Some c -> context_id c <> Some (lit "c2")).
Proof.
  assert (Hitems : items_of old_registry (map_to_list old_registry))
    by (unfold items_of; reflexivity).
  split; [exact Hitems|].
  destruct (get_connection_status_finds_context old_registry
              (map_to_list old_registry) (lit "c2") Hitems) as (Hnone & _).
  exact Hnone.
Defined.

Lemma started_stream_lookup_witness :
  let reg := (create_stream hi_run (Some (lit "c2")) 0 clock clock
                old_registry).2 in
  items_of reg (map_to_list reg)
  /\ is_Some (get_connection_status (map_to_list reg) (lit "c2")).
Proof.
  intros reg.
  assert (Hitems : items_of reg (map_to_list reg))
    by (unfold items_of; reflexivity).
  split; [exact Hitems|].
  destruct (started_stream_lookup hi_run (Some (lit "c2")) 0 clock clock
              old_registry (map_to_list reg) Hitems) as (Hfound & _).
  exact (Hfound (lit "c2") eq_refl).
Defined.

Lemma sweeps_compose_witness :
  (forall cid c,
     old_registry !! cid = Some c ->
     abandoned (float_of_int 301) 300 c = true ->
     abandoned (float_of_int 302) 300 c = true)
  /\ (cleanup_abandoned_connections old_registry (float_of_int 302) 300).2
     = (cleanup_abandoned_connections old_registry (float_of_int 301) 300).2
       + (cleanup_abandoned_connections
            (cleanup_abandoned_connections old_registry
               (float_of_int 301) 300).1
            (float_of_int 302) 300).2.
Proof.
  assert (Hlater : forall cid c,
            old_registry !! cid = Some c ->
            abandoned (float_of_int 301) 300 c = true ->
            abandoned (float_of_int 302) 300 c = true).
  { intros cid c Hc _. unfold old_registry in Hc.
    apply lookup_singleton_Some in Hc as [_ <-]. reflexivity. }
  split; [exact Hlater|].
  destruct (sweeps_compose old_registry (float_of_int 301) (float_of_int 302)
              300 Hlater) as (_ & Hcount).
  exact Hcount.
Defined.

Lemma chat_streaming_body_witness :
  ~ whitespace_only (lit " hello ")
  /\ 0 <= 0
  /\ response_frames (fun _ => hi_run) 3 clock clock ∅
       (chat_streaming (lit " hello ") None 0)
     = token_frames (lit "default") 0 [lit "Hi"; lit " there"]
         ++ [_format_sse_event (model_dump
               (StreamEndEvent (lit "default") (lit "Hi there")))].
Proof.
  assert (Hmsg : ~ whitespace_only (lit " hello "))
    by (unfold whitespace_only; vm_compute; discriminate).
  assert (Hi : 0 <= 0) by lia.
  split_and!; [exact Hmsg|exact Hi|].
  destruct (chat_streaming_body (fun _ => hi_run) (lit " hello ") None 0
              [delta (lit "Hi"); delta (lit " there")] (lit "Hi there")
              clock clock ∅) as (_ & Hbody).
  exact (Hbody Hmsg Hi eq_refl).
Defined.

End MoreExamples.
